(** * mbmd: Modbus RTU polling engine (modbus.go)

    A shallow embedding of the register decoders, the query executor,
    the polling loop [Transform] and the bus scan [Scan] of
    [modbus.go], together with the properties the design document
    states about them. *)

From Stdlib Require Import ZArith List String Bool Lia.
From Stdlib Require Import Floats.SpecFloat.
From Stdlib Require Import Init.Byte.
From Stdlib Require Import Numbers.DecimalString.
From Stdlib Require Import Sorting.Sorted.
Import ListNotations.

Local Open Scope Z_scope.

(** ** Constants *)

Definition MaxRetryCount : Z := 5.
Definition ReadInputReg : Z := 4.
Definition ReadHoldingReg : Z := 3.

(** ** Floating point: Go's [float64] and [float32]

    Values are IEEE-754 binary floats in the representation of the
    standard library's [SpecFloat]: binary64 has 53 bits of precision
    and exponent bound 1024, binary32 has 24 and 128. *)

Module F64.
Definition prec : Z := 53.
Definition emax : Z := 1024.
Definition t := spec_float.

(** A finite value given as [m * 2^e], rounded to binary64. *)
Definition of_scaled (m e : Z) : t := binary_normalize prec emax m e false.

(** Go's [float64(u)] for an unsigned integer [u]. *)
Definition of_uint (u : Z) : t := of_scaled u 0.

Definition div (x y : t) : t := SFdiv prec emax x y.

Definition valid (x : t) : bool := valid_binary prec emax x.
End F64.

Module F32.
Definition prec : Z := 24.
Definition emax : Z := 128.

Definition valid (x : spec_float) : bool := valid_binary prec emax x.
End F32.

(** [math.Float32frombits]: sign bit 31, biased exponent in bits 30..23,
    fraction in bits 22..0. *)
Definition Float32frombits (bits : Z) : spec_float :=
  let s := Z.testbit bits 31 in
  let e := Z.land (Z.shiftr bits 23) 255 in
  let m := Z.land bits (Z.ones 23) in
  if e =? 255 then
    if m =? 0 then S754_infinity s else S754_nan
  else if e =? 0 then
    match m with
    | Zpos p => S754_finite s p (-149)
    | _ => S754_zero s
    end
  else
    match m + 2 ^ 23 with
    | Zpos p => S754_finite s p (e - 150)
    | _ => S754_nan
    end.

(** Go's conversion [float64(f)] of a [float32]: exact, the value is
    re-normalised to a 53-bit mantissa. *)
Definition float64_of_float32 (f : spec_float) : F64.t :=
  match f with
  | S754_finite s m e => binary_round F64.prec F64.emax s m e
  | _ => f
  end.

(** ** Byte slices and [encoding/binary] *)

Definition bytes := list byte.

Definition u8 (b : byte) : Z := Z.of_N (Byte.to_N b).

(** [binary.BigEndian.Uint16]: the bounds check [_ = b[1]] faults on a
    slice shorter than two bytes ([None]). *)
Definition BigEndian_Uint16 (b : bytes) : option Z :=
  match b with
  | b0 :: b1 :: _ => Some (Z.lor (u8 b1) (Z.shiftl (u8 b0) 8))
  | _ => None
  end.

(** [binary.BigEndian.Uint32]: the bounds check [_ = b[3]] faults on a
    slice shorter than four bytes. *)
Definition BigEndian_Uint32 (b : bytes) : option Z :=
  match b with
  | b0 :: b1 :: b2 :: b3 :: _ =>
      Some (Z.lor (Z.lor (Z.lor (u8 b3) (Z.shiftl (u8 b2) 8))
                         (Z.shiftl (u8 b1) 16))
                  (Z.shiftl (u8 b0) 24))
  | _ => None
  end.

(** ** RegisterDecoder

    [RTUTransform] is [func([]byte) float64]; [None] stands for the
    runtime fault (index out of range) of a call on too short a
    slice. *)

Definition RTUTransform := bytes -> option F64.t.

Definition RTU32ToFloat64 : RTUTransform := fun b =>
  match BigEndian_Uint32 b with
  | Some bits => Some (float64_of_float32 (Float32frombits bits))
  | None => None
  end.

Definition RTU16ToFloat64 : RTUTransform := fun b =>
  match BigEndian_Uint16 b with
  | Some u => Some (F64.of_uint u)
  | None => None
  end.

Definition rtuScaledInt32ToFloat64 (b : bytes) (scalar : F64.t) : option F64.t :=
  match BigEndian_Uint32 b with
  | Some u => Some (F64.div (F64.of_uint u) scalar)
  | None => None
  end.

Definition MakeRTU32ScaledIntToFloat64 (scalar : F64.t) : RTUTransform :=
  fun b => rtuScaledInt32ToFloat64 b scalar.

Definition rtuScaledInt16ToFloat64 (b : bytes) (scalar : F64.t) : option F64.t :=
  match BigEndian_Uint16 b with
  | Some u => Some (F64.div (F64.of_uint u) scalar)
  | None => None
  end.

Definition MakeRTU16ScaledIntToFloat64 (scalar : F64.t) : RTUTransform :=
  fun b => rtuScaledInt16ToFloat64 b scalar.

(** Big-endian encodings used to build test payloads. *)
Definition byte_of_Z (z : Z) : byte :=
  match Byte.of_N (Z.to_N (z mod 256)) with
  | Some b => b
  | None => x00
  end.

Definition bytes_of_uint16 (u : Z) : bytes :=
  [byte_of_Z (Z.shiftr u 8); byte_of_Z u].

Definition bytes_of_uint32 (u : Z) : bytes :=
  [byte_of_Z (Z.shiftr u 24); byte_of_Z (Z.shiftr u 16);
   byte_of_Z (Z.shiftr u 8); byte_of_Z u].

(** 3.25 = 13 * 2^-2 and the binary64 nearest to 123.4, both with the
    53-bit mantissa of a normal binary64. *)
Definition f64_3_25 : F64.t := S754_finite false 7318349394477056 (-51).
Definition f64_10 : F64.t := S754_finite false 5629499534213120 (-49).
Definition f64_123_4 : F64.t := S754_finite false 8683503031523738 (-46).

(** [math.Float32bits], used to build the payload of a 32-bit reading
    from a binary32 value. *)
Definition Float32bits (f : spec_float) : Z :=
  let sign (s : bool) := if s then Z.shiftl 1 31 else 0 in
  match f with
  | S754_zero s => sign s
  | S754_infinity s => Z.lor (sign s) 0x7F800000
  | S754_nan => 0x7FC00000
  | S754_finite s m e =>
      if Zpos (digits2_pos m) =? F32.prec
      then Z.lor (sign s) (Z.lor (Z.shiftl (e + 150) 23) (Zpos m - 2 ^ 23))
      else Z.lor (sign s) (Zpos m)
  end.

(** 3.25 as a binary32: 13 * 2^20 * 2^-22. *)
Definition f32_3_25 : spec_float := S754_finite false 13631488 (-22).

(** [is_ratio x n d]: the float [x] is finite and its value is exactly
    the rational [n / d] (for an exponent that is not positive). *)
Definition is_ratio (x : spec_float) (n d : Z) : Prop :=
  match x with
  | S754_finite s m e =>
      e <= 0 /\ cond_Zopp s (Zpos m) * d = n * 2 ^ (- e)
  | S754_zero _ => n = 0
  | _ => False
  end.

(** [is_nearest x n d]: [x] is a valid finite binary64 within half a
    unit in the last place of the rational [n / d]. *)
Definition is_nearest (x : F64.t) (n d : Z) : Prop :=
  match x with
  | S754_finite s m e =>
      F64.valid x = true /\ e <= 0 /\
      2 * Z.abs (cond_Zopp s (Zpos m) * d - n * 2 ^ (- e)) <= d
  | _ => False
  end.

(** ** Data model *)

(** Modelled from the spec: the declaration of [QuerySnip] is not part
    of [modbus.go]; the fields are those the file reads and writes
    (device address, function code, starting register, register count,
    decode transform, and the result slot of value and timestamp).
    The device address is compared with a [uint8] and stored in the
    handler's slave id, the start register and the count are passed as
    the [uint16] arguments of the read primitives; the engine computes
    with none of them, so they are integers here without wrap-around,
    and the test [ReadLen <= 0] is kept as it is written. *)
Module QuerySnip.
Record t := mk {
  DeviceId : Z;
  FuncCode : Z;
  OpCode : Z;
  ReadLen : Z;
  Value : F64.t;
  IEC61850 : string;
  ReadTimestamp : Z;
  Transform : RTUTransform
}.

Definition with_result (s : t) (v : F64.t) (ts : Z) : t :=
  {| DeviceId := DeviceId s; FuncCode := FuncCode s; OpCode := OpCode s;
     ReadLen := ReadLen s; Value := v; IEC61850 := IEC61850 s;
     ReadTimestamp := ts; Transform := Transform s |}.
End QuerySnip.

Inductive ControlSnipType := CONTROLSNIP_OK | CONTROLSNIP_ERROR.

(** Modelled from the spec: the declaration of [ControlSnip] is not
    part of [modbus.go]; the fields are those [Transform] fills in. *)
Module ControlSnip.
Record t := mk {
  Type_ : ControlSnipType;
  Message : string;
  DeviceId : Z
}.
End ControlSnip.

(** Modelled from the spec: the [Producer] interface is declared
    elsewhere; [Scan] uses its probe operation and its meter-type
    label. *)
Record Producer := {
  Probe : Z -> QuerySnip.t;
  GetMeterType : string
}.

(** Modelled from the spec: [Status] is declared elsewhere; the engine
    only increments its two counters (total requests issued, total
    reconnect events), which are unbounded integers here. *)
Record Status := {
  ModbusRequests : Z;
  ModbusReconnects : Z
}.

(** The part of [modbus.RTUClientHandler] the engine touches; the
    timeout is in milliseconds. *)
Record RTUClientHandler := {
  SlaveId : Z;
  Timeout : Z
}.

(** A register read returns the payload or an error (its message). *)
Definition Response := (bytes + string)%type.

(** [modbus.Client]: the two read primitives, each given the address
    and the quantity.  The bus is external: the reply may depend on
    how many requests the session has issued before and on the
    handler's slave id and timeout. *)
Record Client := {
  ReadInputRegisters : nat -> RTUClientHandler -> Z -> Z -> Response;
  ReadHoldingRegisters : nat -> RTUClientHandler -> Z -> Z -> Response
}.

Record ModbusEngine := {
  client : Client;
  handler : RTUClientHandler;
  verbose : bool;
  status : Status
}.

Inductive Primitive := PrimReadInputRegisters | PrimReadHoldingRegisters.

(** The arguments of the [log.Printf] calls. *)
Inductive LogLine :=
| LogQueryFailed (opcode : Z) (err : string)
| LogRetry (deviceId attempt budget : Z)
| LogScanStart
| LogFound (deviceId : Z) (meterType iec : string) (value : F64.t)
| LogNA (deviceId : Z)
| LogFoundCount (n : nat)
| LogDevice (deviceId : Z) (meterType : string)
| LogWarning.

(** What the engine does to the world outside, in order.  A request
    carries the time [at_] at which it is issued. *)
Inductive Event :=
| EvRecv (s : QuerySnip.t)
| EvSleep (ms : Z)
| EvRequest (at_ : Z) (p : Primitive) (h : RTUClientHandler)
            (address quantity : Z) (r : Response)
| EvOutput (s : QuerySnip.t)
| EvControl (c : ControlSnip.t)
| EvLog (l : LogLine).

(** The engine and its environment.  [clock] is the time in
    milliseconds the engine has spent in [time.Sleep]; everything else
    is taken to be instantaneous, so differences of [clock] are the
    delays the code enforces.  [issued] counts the requests sent on the
    bus. *)
Record World := {
  engine : ModbusEngine;
  clock : Z;
  issued : nat;
  trace : list Event
}.

(** ** Effects

    A computation runs on a world and either returns, or the process
    is gone: [log.Fatalf] exits it, a runtime fault unwinds it. *)

Inductive Abort := FatalExit | RuntimePanic.

Inductive Outcome (A : Type) :=
| Done (a : A) (w : World)
| Aborted (why : Abort) (w : World).
Arguments Done {A} a w.
Arguments Aborted {A} why w.

Definition M (A : Type) := World -> Outcome A.

Definition ret {A} (a : A) : M A := fun w => Done a w.

Definition bind {A B} (m : M A) (k : A -> M B) : M B :=
  fun w => match m w with
           | Done a w' => k a w'
           | Aborted why w' => Aborted why w'
           end.

Declare Scope engine_scope.
Delimit Scope engine_scope with engine.
Notation "x <- c1 ;; c2" := (bind c1 (fun x => c2))
  (at level 61, c1 at next level, right associativity) : engine_scope.
Notation "c1 ;; c2" := (bind c1 (fun _ => c2))
  (at level 61, right associativity) : engine_scope.
Local Open Scope engine_scope.

Definition abort {A} (why : Abort) : M A := fun w => Aborted why w.

Definition final {A} (o : Outcome A) : World :=
  match o with Done _ w => w | Aborted _ w => w end.

Definition emit (e : Event) : M unit := fun w =>
  Done tt {| engine := engine w; clock := clock w; issued := issued w;
             trace := trace w ++ [e] |}.

Definition modify (f : ModbusEngine -> ModbusEngine) : M unit := fun w =>
  Done tt {| engine := f (engine w); clock := clock w; issued := issued w;
             trace := trace w |}.

Definition get_engine : M ModbusEngine := fun w => Done (engine w) w.

Definition log_Printf (l : LogLine) : M unit := emit (EvLog l).

(** [time.Sleep] of [ms] milliseconds. *)
Definition time_Sleep (ms : Z) : M unit := fun w =>
  Done tt {| engine := engine w; clock := clock w + ms; issued := issued w;
             trace := trace w ++ [EvSleep ms] |}.

Definition time_Now : M Z := fun w => Done (clock w) w.

(** Calling a transform: a fault in it unwinds the caller. *)
Definition call (f : RTUTransform) (b : bytes) : M F64.t :=
  match f b with
  | Some v => ret v
  | None => abort RuntimePanic
  end.

Definition set_SlaveId (id : Z) (q : ModbusEngine) : ModbusEngine :=
  {| client := client q;
     handler := {| SlaveId := id; Timeout := Timeout (handler q) |};
     verbose := verbose q; status := status q |}.

Definition set_Timeout (t : Z) (q : ModbusEngine) : ModbusEngine :=
  {| client := client q;
     handler := {| SlaveId := SlaveId (handler q); Timeout := t |};
     verbose := verbose q; status := status q |}.

Definition IncreaseModbusRequestCounter (q : ModbusEngine) : ModbusEngine :=
  {| client := client q; handler := handler q; verbose := verbose q;
     status := {| ModbusRequests := ModbusRequests (status q) + 1;
                  ModbusReconnects := ModbusReconnects (status q) |} |}.

Definition IncreaseModbusReconnectCounter (q : ModbusEngine) : ModbusEngine :=
  {| client := client q; handler := handler q; verbose := verbose q;
     status := {| ModbusRequests := ModbusRequests (status q);
                  ModbusReconnects := ModbusReconnects (status q) + 1 |} |}.

(** The reply of the bus to the [i]-th request of the session. *)
Definition reply (cl : Client) (p : Primitive) (i : nat) (h : RTUClientHandler)
           (address quantity : Z) : Response :=
  match p with
  | PrimReadInputRegisters => ReadInputRegisters cl i h address quantity
  | PrimReadHoldingRegisters => ReadHoldingRegisters cl i h address quantity
  end.

(** One blocking register read through the client; the event records
    the time of the call. *)
Definition read_registers (p : Primitive) (address quantity : Z) : M Response :=
  fun w =>
    let q := engine w in
    let r := reply (client q) p (issued w) (handler q) address quantity in
    Done r {| engine := q; clock := clock w; issued := S (issued w);
              trace := trace w ++
                       [EvRequest (clock w) p (handler q) address quantity r] |}.

(** ** QueryExecutor *)

Definition query (snip : QuerySnip.t) : M Response :=
  modify IncreaseModbusRequestCounter ;;
  modify (set_SlaveId (QuerySnip.DeviceId snip)) ;;
  (if QuerySnip.ReadLen snip <=? 0 then abort FatalExit else ret tt) ;;
  r <- (if QuerySnip.FuncCode snip =? ReadInputReg then
          read_registers PrimReadInputRegisters
                         (QuerySnip.OpCode snip) (QuerySnip.ReadLen snip)
        else if QuerySnip.FuncCode snip =? ReadHoldingReg then
          read_registers PrimReadHoldingRegisters
                         (QuerySnip.OpCode snip) (QuerySnip.ReadLen snip)
        else abort FatalExit) ;;
  q <- get_engine ;;
  match r with
  | inr err =>
      (if verbose q
       then log_Printf (LogQueryFailed (QuerySnip.OpCode snip) err)
       else ret tt) ;;
      ret r
  | inl _ => ret r
  end.

(** ** PollingLoop *)

(** [fmt.Sprintf] of a [%d] argument. *)
Definition fmt_d (z : Z) : string := NilZero.string_of_int (Z.to_int z).

Definition successSnip (snip : QuerySnip.t) : ControlSnip.t :=
  {| ControlSnip.Type_ := CONTROLSNIP_OK;
     ControlSnip.Message := "OK";
     ControlSnip.DeviceId := QuerySnip.DeviceId snip |}.

Definition errorSnip (snip : QuerySnip.t) : ControlSnip.t :=
  {| ControlSnip.Type_ := CONTROLSNIP_ERROR;
     ControlSnip.Message :=
       "Device " ++ fmt_d (QuerySnip.DeviceId snip) ++ " did not respond.";
     ControlSnip.DeviceId := QuerySnip.DeviceId snip |}.

(** The retry loop [for retryCount := 0; retryCount < MaxRetryCount;
    retryCount++], by recursion on the number [n] of iterations left
    ([retryCount = MaxRetryCount - n]).  It returns [true] when it
    leaves through [goto PROCESS_READINGS] and [false] when it runs
    out. *)
Fixpoint retry_loop (n : nat) (retryCount : Z) (snip : QuerySnip.t) : M bool :=
  match n with
  | O => ret false
  | S n' =>
      r <- query snip ;;
      match r with
      | inl reading =>
          v <- call (QuerySnip.Transform snip) reading ;;
          ts <- time_Now ;;
          let snip := QuerySnip.with_result snip v ts in
          emit (EvOutput snip) ;;
          emit (EvControl (successSnip snip)) ;;
          ret true
      | inr _ =>
          modify IncreaseModbusReconnectCounter ;;
          log_Printf (LogRetry (QuerySnip.DeviceId snip) (retryCount + 1)
                               MaxRetryCount) ;;
          time_Sleep 100 ;;
          retry_loop n' (retryCount + 1) snip
      end
  end.

(** The pause before the first query of a freshly dequeued snip. *)
Definition settle (previousDeviceId : Z) (snip : QuerySnip.t) : M unit :=
  if negb (previousDeviceId =? QuerySnip.DeviceId snip)
  then time_Sleep 100
  else ret tt.

(** One pass of the outer loop body for the snip just received; the
    result is the new [previousDeviceId]. *)
Definition serve (previousDeviceId : Z) (snip : QuerySnip.t) : M Z :=
  emit (EvRecv snip) ;;
  settle previousDeviceId snip ;;
  let previousDeviceId := QuerySnip.DeviceId snip in
  ok <- retry_loop (Z.to_nat MaxRetryCount) 0 snip ;;
  (if ok then ret tt else emit (EvControl (errorSnip snip))) ;;
  ret previousDeviceId.

(** The outer [for] loop on the requests the input stream delivers, in
    order; when they are used up the loop blocks in the receive, and
    the computation returns the world (and [previousDeviceId]) at that
    point. *)
Fixpoint poll (previousDeviceId : Z) (inputStream : list QuerySnip.t) : M Z :=
  match inputStream with
  | [] => ret previousDeviceId
  | snip :: rest =>
      previousDeviceId <- serve previousDeviceId snip ;;
      poll previousDeviceId rest
  end.

(** The method [Transform] of the engine: [var previousDeviceId uint8] starts
    at zero.  The control and output streams are the [EvControl] and
    [EvOutput] events of the trace. *)
Definition Transform (inputStream : list QuerySnip.t) : M Z :=
  poll 0 inputStream.

(** ** BusScanner *)

Record DeviceInfo := {
  DeviceId : Z;
  MeterType : string
}.

(** The inner loop over the producers at one address: [Some dev] when
    it leaves through [continue SCAN]. *)
Fixpoint scan_producers (deviceId : Z) (producers : list Producer)
  : M (option DeviceInfo) :=
  match producers with
  | [] => ret None
  | producer :: rest =>
      let snip := Probe producer deviceId in
      r <- query snip ;;
      match r with
      | inl value =>
          v <- call (QuerySnip.Transform snip) value ;;
          log_Printf (LogFound deviceId (GetMeterType producer)
                               (QuerySnip.IEC61850 snip) v) ;;
          ret (Some {| DeviceId := deviceId;
                       MeterType := GetMeterType producer |})
      | inr _ => scan_producers deviceId rest
      end
  end.

(** The loop [for deviceId = 1; deviceId <= 247; deviceId++], by
    recursion on the number [n] of addresses left. *)
Fixpoint scan_addresses (producers : list Producer) (n : nat) (deviceId : Z)
         (deviceList : list DeviceInfo) : M (list DeviceInfo) :=
  match n with
  | O => ret deviceList
  | S n' =>
      time_Sleep 40 ;;
      found <- scan_producers deviceId producers ;;
      match found with
      | Some dev =>
          scan_addresses producers n' (deviceId + 1) (deviceList ++ [dev])
      | None =>
          log_Printf (LogNA deviceId) ;;
          scan_addresses producers n' (deviceId + 1) deviceList
      end
  end.

Fixpoint log_devices (deviceList : list DeviceInfo) : M unit :=
  match deviceList with
  | [] => ret tt
  | device :: rest =>
      log_Printf (LogDevice (DeviceId device) (MeterType device)) ;;
      log_devices rest
  end.

(** The method [Scan] of the engine.  The three producers the source builds
    ([NewSDMProducer], [NewJanitzaProducer], [NewDZGProducer]) are
    declared elsewhere and are taken as the list [producers]. *)
Definition Scan (producers : list Producer) : M unit :=
  q <- get_engine ;;
  let oldtimeout := Timeout (handler q) in
  modify (set_Timeout 50) ;;
  log_Printf LogScanStart ;;
  deviceList <- scan_addresses producers 247 1 [] ;;
  modify (set_Timeout oldtimeout) ;;
  log_Printf (LogFoundCount (List.length deviceList)) ;;
  log_devices deviceList ;;
  log_Printf LogWarning.

(** ** Reading a trace *)

Definition controls (tr : list Event) : list ControlSnip.t :=
  flat_map (fun e => match e with EvControl c => [c] | _ => [] end) tr.

Definition outputs (tr : list Event) : list QuerySnip.t :=
  flat_map (fun e => match e with EvOutput s => [s] | _ => [] end) tr.

Definition received (tr : list Event) : list QuerySnip.t :=
  flat_map (fun e => match e with EvRecv s => [s] | _ => [] end) tr.

(** The requests sent on the bus: primitive, handler at the time of
    the call, address, quantity. *)
Definition requests (tr : list Event)
  : list (Primitive * RTUClientHandler * Z * Z) :=
  flat_map (fun e => match e with
                     | EvRequest _ p h a n _ => [(p, h, a, n)]
                     | _ => []
                     end) tr.

(** The times at which the requests were issued. *)
Definition request_times (tr : list Event) : list Z :=
  flat_map (fun e => match e with EvRequest t _ _ _ _ _ => [t] | _ => [] end) tr.

(** The receives and the control snips, in the order they happen. *)
Definition dialogue (tr : list Event) : list (QuerySnip.t + ControlSnip.t) :=
  flat_map (fun e => match e with
                     | EvRecv s => [inl s]
                     | EvControl c => [inr c]
                     | _ => []
                     end) tr.

(** The final report of a scan and its "n/a" lines. *)
Definition reported (tr : list Event) : list (Z * string) :=
  flat_map (fun e => match e with
                     | EvLog (LogDevice d t) => [(d, t)]
                     | _ => []
                     end) tr.

Definition reported_absent (tr : list Event) : list Z :=
  flat_map (fun e => match e with EvLog (LogNA d) => [d] | _ => [] end) tr.

(** ** Specification vocabulary *)

(** The primitive a snip is dispatched to, if [query] accepts it. *)
Definition dispatch (snip : QuerySnip.t) : option Primitive :=
  if QuerySnip.ReadLen snip <=? 0 then None
  else if QuerySnip.FuncCode snip =? ReadInputReg then Some PrimReadInputRegisters
  else if QuerySnip.FuncCode snip =? ReadHoldingReg then Some PrimReadHoldingRegisters
  else None.

(** The handler as [query] leaves it for a snip, on a session whose
    timeout is [t]. *)
Definition addressed (t : Z) (snip : QuerySnip.t) : RTUClientHandler :=
  {| SlaveId := QuerySnip.DeviceId snip; Timeout := t |}.

(** What the bus answers when [snip] is queried as the [i]-th request
    of a session with timeout [t]; [None] when [query] refuses it. *)
Definition attempt (cl : Client) (t : Z) (snip : QuerySnip.t) (i : nat)
  : option Response :=
  match dispatch snip with
  | Some p => Some (reply cl p i (addressed t snip)
                          (QuerySnip.OpCode snip) (QuerySnip.ReadLen snip))
  | None => None
  end.

(** The [n] attempts from the [i]-th request on all end in an error. *)
Fixpoint fails (cl : Client) (t : Z) (snip : QuerySnip.t) (i n : nat) : bool :=
  match n with
  | O => true
  | S n' =>
      match attempt cl t snip i with
      | Some (inr _) => fails cl t snip (S i) n'
      | _ => false
      end
  end.

(** A client that keeps the Modbus contract: a successful read of [n]
    registers carries [2 * n] bytes. *)
Definition faithful (cl : Client) : Prop :=
  forall p i h a n b, reply cl p i h a n = inl b -> Z.of_nat (List.length b) = 2 * n.

(** A bus whose replies do not depend on the history of the session. *)
Definition static (cl : Client) : Prop :=
  forall p i j h a n, reply cl p i h a n = reply cl p j h a n.

(** A request [query] accepts and whose transform decodes every payload
    of the declared length. *)
Definition well_formed (snip : QuerySnip.t) : Prop :=
  dispatch snip <> None /\
  forall b, Z.of_nat (List.length b) = 2 * QuerySnip.ReadLen snip ->
            QuerySnip.Transform snip b <> None.

(** A producer whose probes are well formed and addressed to the
    device they are asked for. *)
Definition sound_producer (p : Producer) : Prop :=
  forall d, QuerySnip.DeviceId (Probe p d) = d /\ well_formed (Probe p d).

(** The probe of [p] at address [d] is answered, on a static bus
    scanned with the 50 ms timeout. *)
Definition responds (cl : Client) (d : Z) (p : Producer) : bool :=
  match attempt cl 50 (Probe p d) 0 with
  | Some (inl _) => true
  | _ => false
  end.

(** The label of the first producer, in order, that is answered at
    [d]. *)
Definition first_match (cl : Client) (producers : list Producer) (d : Z)
  : option string :=
  option_map GetMeterType (find (responds cl d) producers).

(** The addresses [d, d + 1, ..., d + n - 1]. *)
Fixpoint addresses (n : nat) (d : Z) : list Z :=
  match n with
  | O => []
  | S n' => d :: addresses n' (d + 1)
  end.

Definition expected_report (cl : Client) (producers : list Producer)
           (ds : list Z) : list (Z * string) :=
  flat_map (fun d => match first_match cl producers d with
                     | Some t => [(d, t)]
                     | None => []
                     end) ds.

Definition expected_absent (cl : Client) (producers : list Producer)
           (ds : list Z) : list Z :=
  filter (fun d => match first_match cl producers d with
                   | Some _ => false
                   | None => true
                   end) ds.

Fixpoint interleave {A B} (l : list A) (r : list B) : list (A + B) :=
  match l, r with
  | a :: l', b :: r' => inl a :: inr b :: interleave l' r'
  | _, _ => []
  end.

(** ** Proof vocabulary *)

(** A computation only adds events to the trace, however it ends. *)
Definition grows {A} (m : M A) : Prop :=
  forall w, exists evs, trace (final (m w)) = trace w ++ evs.

Definition world (q : ModbusEngine) (c : Z) (i : nat) (tr : list Event) : World :=
  {| engine := q; clock := c; issued := i; trace := tr |}.

(** The engine after [query] has counted the request and set the
    slave id. *)
Definition counted (snip : QuerySnip.t) (q : ModbusEngine) : ModbusEngine :=
  set_SlaveId (QuerySnip.DeviceId snip) (IncreaseModbusRequestCounter q).

(** The events of one accepted query. *)
Definition query_events (w : World) (snip : QuerySnip.t) (p : Primitive)
           (r : Response) : list Event :=
  EvRequest (clock w) p (handler (counted snip (engine w)))
            (QuerySnip.OpCode snip) (QuerySnip.ReadLen snip) r ::
  match r with
  | inr err => if verbose (engine w)
               then [EvLog (LogQueryFailed (QuerySnip.OpCode snip) err)]
               else []
  | inl _ => []
  end.

(** The control snips and the receives are the two sides of the
    dialogue. *)
Definition lefts {A B} (l : list (A + B)) : list A :=
  flat_map (fun x => match x with inl a => [a] | inr _ => [] end) l.
Definition rights {A B} (l : list (A + B)) : list B :=
  flat_map (fun x => match x with inl _ => [] | inr b => [b] end) l.

(** What a run changes of the world: [reqs] requests counted and
    issued, [recon] reconnects counted, [ms] milliseconds slept, and
    the events [evs]; the client, the verbosity and the timeout
    stay. *)
Definition effect (w w' : World) (reqs recon : nat) (ms : Z)
           (evs : list Event) : Prop :=
  client (engine w') = client (engine w) /\
  verbose (engine w') = verbose (engine w) /\
  Timeout (handler (engine w')) = Timeout (handler (engine w)) /\
  ModbusRequests (status (engine w')) =
    ModbusRequests (status (engine w)) + Z.of_nat reqs /\
  ModbusReconnects (status (engine w')) =
    ModbusReconnects (status (engine w)) + Z.of_nat recon /\
  issued w' = (issued w + reqs)%nat /\
  clock w' = clock w + ms /\
  trace w' = trace w ++ evs.

(** The request times of [n] attempts 100 ms apart from [c] on. *)
Fixpoint times (c : Z) (n : nat) : list Z :=
  match n with
  | O => []
  | S n' => c :: times (c + 100) n'
  end.

(** The settle pause before a snip, given the previously served id. *)
Definition pause (previousDeviceId : Z) (snip : QuerySnip.t) : Z :=
  if previousDeviceId =? QuerySnip.DeviceId snip then 0 else 100.

(** The events from the receive of a snip to its first query. *)
Definition arrival (previousDeviceId : Z) (snip : QuerySnip.t) : list Event :=
  EvRecv snip ::
  if previousDeviceId =? QuerySnip.DeviceId snip then [] else [EvSleep 100].

(** The world when the first query of a received snip starts. *)
Definition arrived (previousDeviceId : Z) (snip : QuerySnip.t) (w : World)
  : World :=
  world (engine w) (clock w + pause previousDeviceId snip) (issued w)
        (trace w ++ arrival previousDeviceId snip).

(** The ways an attempt ends the process: the request is refused, or
    the transform faults on the payload. *)
Definition deadly (cl : Client) (t : Z) (snip : QuerySnip.t) (i : nat) : Prop :=
  attempt cl t snip i = None \/
  exists reading, attempt cl t snip i = Some (inl reading) /\
                  QuerySnip.Transform snip reading = None.

(** The answer to a snip: its OK or its ERROR control snip. *)
Definition answers (snip : QuerySnip.t) (c : ControlSnip.t) : Prop :=
  c = successSnip snip \/ c = errorSnip snip.

(** The slave id a request on the bus is addressed to. *)
Definition request_slave (rq : Primitive * RTUClientHandler * Z * Z) : Z :=
  let '(_, h, _, _) := rq in SlaveId h.

(** The timeout under which a request on the bus was issued. *)
Definition request_timeout (rq : Primitive * RTUClientHandler * Z * Z) : Z :=
  let '(_, h, _, _) := rq in Timeout h.

(** A computation that leaves the session timeout as it finds it,
    however it ends, and issues all its requests under it. *)
Definition keeps_timeout {A} (m : M A) : Prop :=
  forall w,
    Timeout (handler (engine (final (m w)))) = Timeout (handler (engine w)) /\
    exists evs,
      trace (final (m w)) = trace w ++ evs /\
      Forall (fun rq => request_timeout rq = Timeout (handler (engine w)))
             (requests evs).

(** A computation all of whose requests, however it ends, satisfy
    [P]. *)
Definition issues {A} (P : Primitive * RTUClientHandler * Z * Z -> Prop)
           (m : M A) : Prop :=
  forall w, exists evs,
    trace (final (m w)) = trace w ++ evs /\ Forall P (requests evs).

(** Producers whose probes are addressed to the device they are asked
    for. *)
Definition addressed_probes (producers : list Producer) : Prop :=
  forall p d, In p producers -> QuerySnip.DeviceId (Probe p d) = d.

(** An entry of the report as the scan keeps it in its device list. *)
Definition device (entry : Z * string) : DeviceInfo :=
  {| DeviceId := fst entry; MeterType := snd entry |}.

(** ** Simulated buses and requests

    Fixtures on which the properties below are run. *)

Definition payload_3_25 : bytes := bytes_of_uint32 (Float32bits f32_3_25).

(** A bus that times out on the first [n] requests of the session and
    answers every later read of two registers with the reading 3.25. *)
Definition flaky (n : nat) : Client :=
  let answer (i : nat) (quantity : Z) : Response :=
    if (i <? n)%nat then inr "timeout"%string
    else if quantity =? 2 then inl payload_3_25
    else inr "illegal data address"%string in
  {| ReadInputRegisters := fun i _ _ quantity => answer i quantity;
     ReadHoldingRegisters := fun i _ _ quantity => answer i quantity |}.

(** A bus on which only the devices 5 and 42 answer, and only to a
    read of two input registers. *)
Definition two_devices : Client :=
  {| ReadInputRegisters := fun _ h _ n =>
       if ((SlaveId h =? 5) || (SlaveId h =? 42)) && (n =? 2)
       then inl payload_3_25 else inr "timeout"%string;
     ReadHoldingRegisters := fun _ _ _ _ => inr "timeout"%string |}.

(** A bus that answers every read with a payload of two bytes. *)
Definition short_reply : Client :=
  {| ReadInputRegisters := fun _ _ _ _ => inl (bytes_of_uint16 1234);
     ReadHoldingRegisters := fun _ _ _ _ => inl (bytes_of_uint16 1234) |}.

(** A freshly connected engine: the constructor sets the timeout to
    300 ms. *)
Definition boot (cl : Client) : World :=
  {| engine := {| client := cl;
                  handler := {| SlaveId := 0; Timeout := 300 |};
                  verbose := false;
                  status := {| ModbusRequests := 0; ModbusReconnects := 0 |} |};
     clock := 0; issued := 0; trace := [] |}.

(** A read of two input registers decoded as a 32-bit float. *)
Definition voltage (d : Z) : QuerySnip.t :=
  {| QuerySnip.DeviceId := d; QuerySnip.FuncCode := ReadInputReg;
     QuerySnip.OpCode := 0; QuerySnip.ReadLen := 2;
     QuerySnip.Value := S754_zero false; QuerySnip.IEC61850 := "VolLocPhsA";
     QuerySnip.ReadTimestamp := 0; QuerySnip.Transform := RTU32ToFloat64 |}.

(** A read of two holding registers decoded as a 32-bit float. *)
Definition holding (d : Z) : QuerySnip.t :=
  {| QuerySnip.DeviceId := d; QuerySnip.FuncCode := ReadHoldingReg;
     QuerySnip.OpCode := 19000; QuerySnip.ReadLen := 2;
     QuerySnip.Value := S754_zero false; QuerySnip.IEC61850 := "VolLocPhsA";
     QuerySnip.ReadTimestamp := 0; QuerySnip.Transform := RTU32ToFloat64 |}.

(** A request with a function code [query] does not know. *)
Definition malformed (d : Z) : QuerySnip.t :=
  {| QuerySnip.DeviceId := d; QuerySnip.FuncCode := 6;
     QuerySnip.OpCode := 0; QuerySnip.ReadLen := 2;
     QuerySnip.Value := S754_zero false; QuerySnip.IEC61850 := "VolLocPhsA";
     QuerySnip.ReadTimestamp := 0; QuerySnip.Transform := RTU32ToFloat64 |}.

Definition sdm : Producer := {| Probe := voltage; GetMeterType := "SDM" |}.
Definition janitza : Producer := {| Probe := holding; GetMeterType := "JANITZA" |}.
Definition broken : Producer := {| Probe := malformed; GetMeterType := "BROKEN" |}.

(** ** More readings of a trace *)

(** The errors and the payloads the bus answered with, in order. *)
Definition failed (tr : list Event) : list string :=
  flat_map (fun e => match e with
                     | EvRequest _ _ _ _ _ (inr err) => [err]
                     | _ => []
                     end) tr.

Definition answered (tr : list Event) : list bytes :=
  flat_map (fun e => match e with
                     | EvRequest _ _ _ _ _ (inl b) => [b]
                     | _ => []
                     end) tr.

(** The sleeps, and the time spent in them. *)
Definition sleeps (tr : list Event) : list Z :=
  flat_map (fun e => match e with EvSleep ms => [ms] | _ => [] end) tr.

Definition total (l : list Z) : Z := fold_right Z.add 0 l.

Definition slept (tr : list Event) : Z := total (sleeps tr).

(** What is put on the output and the control stream, in the order
    of the sends. *)
Definition sent (tr : list Event) : list (QuerySnip.t + ControlSnip.t) :=
  flat_map (fun e => match e with
                     | EvOutput s => [inl s]
                     | EvControl c => [inr c]
                     | _ => []
                     end) tr.

(** The log lines. *)
Definition logged (tr : list Event) : list LogLine :=
  flat_map (fun e => match e with EvLog l => [l] | _ => [] end) tr.

(** How a request ends: with a decoded value and its timestamp, or
    with its retries used up. *)
Definition Result := option (F64.t * Z).

(** What the loop sends for a request that ended with [r]. *)
Definition delivery (snip : QuerySnip.t) (r : Result)
  : list (QuerySnip.t + ControlSnip.t) :=
  match r with
  | Some (v, ts) => [inl (QuerySnip.with_result snip v ts);
                     inr (successSnip snip)]
  | None => [inr (errorSnip snip)]
  end.

Fixpoint deliveries (input : list QuerySnip.t) (rs : list Result)
  : list (QuerySnip.t + ControlSnip.t) :=
  match input, rs with
  | snip :: input', r :: rs' => delivery snip r ++ deliveries input' rs'
  | _, _ => []
  end.

(** The number of times the device id changes along [ids], coming
    from [previous]. *)
Fixpoint switches (previous : Z) (ids : list Z) : nat :=
  match ids with
  | [] => 0
  | d :: ids' => (if previous =? d then 0 else 1) + switches d ids'
  end.

(** The books of a run from [w] to [w'] with the events [evs]: the
    request counter and [issued] count the requests on the bus, the
    reconnect counter counts the failed ones, the clock counts the
    sleeps, and the session is otherwise as it was. *)
Definition ledger (w w' : World) (evs : list Event) : Prop :=
  trace w' = trace w ++ evs /\
  client (engine w') = client (engine w) /\
  verbose (engine w') = verbose (engine w) /\
  Timeout (handler (engine w')) = Timeout (handler (engine w)) /\
  ModbusRequests (status (engine w')) =
    ModbusRequests (status (engine w)) + Z.of_nat (List.length (requests evs)) /\
  ModbusReconnects (status (engine w')) =
    ModbusReconnects (status (engine w)) + Z.of_nat (List.length (failed evs)) /\
  issued w' = (issued w + List.length (requests evs))%nat /\
  clock w' = clock w + slept evs /\
  List.length (requests evs)
    = (List.length (failed evs) + List.length (answered evs))%nat.

(** A result the loop can have produced between the times [lo] and
    [hi]: a value the snip's transform decodes from some payload,
    stamped in that interval. *)
Definition result_ok (lo hi : Z) (snip : QuerySnip.t) (r : Result) : Prop :=
  match r with
  | Some (v, ts) =>
      lo <= ts <= hi /\
      exists reading, QuerySnip.Transform snip reading = Some v
  | None => True
  end.

(** The verdict lines of a scan, in order: a device found with its
    meter type, or an address reported "n/a". *)
Definition verdicts (tr : list Event) : list (Z * option string) :=
  flat_map (fun e => match e with
                     | EvLog (LogFound d t _ _) => [(d, Some t)]
                     | EvLog (LogNA d) => [(d, None)]
                     | _ => []
                     end) tr.

(** The devices among the verdicts. *)
Definition found (vs : list (Z * option string)) : list (Z * string) :=
  flat_map (fun v => match snd v with
                     | Some t => [(fst v, t)]
                     | None => []
                     end) vs.

(** The "Found n active devices" lines. *)
Definition counts (tr : list Event) : list nat :=
  flat_map (fun e => match e with
                     | EvLog (LogFoundCount n) => [n]
                     | _ => []
                     end) tr.

(** The books of a stretch of the scan from [w] to [w']: requests are
    counted, the reconnect counter and the streams are not touched,
    the clock counts the sleeps. *)
Definition sweep (w w' : World) (evs : list Event) : Prop :=
  trace w' = trace w ++ evs /\
  client (engine w') = client (engine w) /\
  verbose (engine w') = verbose (engine w) /\
  Timeout (handler (engine w')) = Timeout (handler (engine w)) /\
  ModbusRequests (status (engine w')) =
    ModbusRequests (status (engine w)) + Z.of_nat (List.length (requests evs)) /\
  ModbusReconnects (status (engine w')) = ModbusReconnects (status (engine w)) /\
  issued w' = (issued w + List.length (requests evs))%nat /\
  clock w' = clock w + slept evs /\
  sent evs = [] /\ received evs = [].

(** The addresses among the verdicts that are reported "n/a". *)
Definition missing (vs : list (Z * option string)) : list Z :=
  flat_map (fun v => match snd v with
                     | Some _ => []
                     | None => [fst v]
                     end) vs.

(** * Properties *)


(** ** Decoders *)

Lemma Uint32_defined (b : bytes) :
  (4 <= List.length b)%nat -> exists u, BigEndian_Uint32 b = Some u.
Proof.
  destruct b as [|b0 [|b1 [|b2 [|b3 tl]]]]; simpl; intros H; try lia.
  eexists; reflexivity.
Qed.

Lemma Uint16_defined (b : bytes) :
  (2 <= List.length b)%nat -> exists u, BigEndian_Uint16 b = Some u.
Proof.
  destruct b as [|b0 [|b1 tl]]; simpl; intros H; try lia.
  eexists; reflexivity.
Qed.

Lemma Uint32_short (b : bytes) :
  (List.length b < 4)%nat -> BigEndian_Uint32 b = None.
Proof.
  destruct b as [|b0 [|b1 [|b2 [|b3 tl]]]]; simpl; intros H;
    first [reflexivity | lia].
Qed.

Lemma Uint16_short (b : bytes) :
  (List.length b < 2)%nat -> BigEndian_Uint16 b = None.
Proof.
  destruct b as [|b0 [|b1 tl]]; simpl; intros H; first [reflexivity | lia].
Qed.

Lemma Uint32_firstn (b : bytes) :
  BigEndian_Uint32 (firstn 4 b) = BigEndian_Uint32 b.
Proof. destruct b as [|b0 [|b1 [|b2 [|b3 tl]]]]; reflexivity. Qed.

Lemma Uint16_firstn (b : bytes) :
  BigEndian_Uint16 (firstn 2 b) = BigEndian_Uint16 b.
Proof. destruct b as [|b0 [|b1 tl]]; reflexivity. Qed.

(** C8.  The 32-bit decode of the four big-endian bytes [40 50 00 00],
    the binary32 encoding of 3.25, is the binary64 of value 13/4,
    exactly 3.25; the scaled 16-bit decode of the two big-endian bytes
    [04 d2] of 1234 with the scalar 10.0 is the binary64 nearest to
    1234/10, which is what the literal 123.4 denotes. *)
Theorem decode_examples :
  F32.valid f32_3_25 = true /\ is_ratio f32_3_25 13 4 /\
  bytes_of_uint32 (Float32bits f32_3_25) = [x40; x50; x00; x00] /\
  RTU32ToFloat64 (bytes_of_uint32 (Float32bits f32_3_25)) = Some f64_3_25 /\
  is_ratio f64_3_25 13 4 /\
  bytes_of_uint16 1234 = [x04; xd2] /\
  is_ratio f64_10 10 1 /\
  rtuScaledInt16ToFloat64 (bytes_of_uint16 1234) f64_10 = Some f64_123_4 /\
  is_nearest f64_123_4 1234 10.
Proof.
  repeat split; try (vm_compute; congruence); vm_compute; reflexivity.
Qed.

(** C9.  On a slice of at least four bytes the two 32-bit decodes,
    and on a slice of at least two bytes the two 16-bit decodes,
    return a value: no index is out of range, and called by the
    engine they neither end the process nor change the world.  The
    decodes are functions of the slice (and the scalar) alone, and of
    its first four (two) bytes only.  (On a shorter slice the bounds
    check of [encoding/binary] faults.) *)
Theorem decoders_total (b : bytes) (scalar : F64.t) :
  ((4 <= List.length b)%nat ->
   (exists v, RTU32ToFloat64 b = Some v /\
              forall w, call RTU32ToFloat64 b w = Done v w) /\
   (exists v, rtuScaledInt32ToFloat64 b scalar = Some v /\
              forall w, call (MakeRTU32ScaledIntToFloat64 scalar) b w = Done v w)) /\
  ((2 <= List.length b)%nat ->
   (exists v, RTU16ToFloat64 b = Some v /\
              forall w, call RTU16ToFloat64 b w = Done v w) /\
   (exists v, rtuScaledInt16ToFloat64 b scalar = Some v /\
              forall w, call (MakeRTU16ScaledIntToFloat64 scalar) b w = Done v w)) /\
  RTU32ToFloat64 (firstn 4 b) = RTU32ToFloat64 b /\
  rtuScaledInt32ToFloat64 (firstn 4 b) scalar = rtuScaledInt32ToFloat64 b scalar /\
  RTU16ToFloat64 (firstn 2 b) = RTU16ToFloat64 b /\
  rtuScaledInt16ToFloat64 (firstn 2 b) scalar = rtuScaledInt16ToFloat64 b scalar /\
  ((List.length b < 4)%nat ->
   RTU32ToFloat64 b = None /\ rtuScaledInt32ToFloat64 b scalar = None) /\
  ((List.length b < 2)%nat ->
   RTU16ToFloat64 b = None /\ rtuScaledInt16ToFloat64 b scalar = None).
Proof.
  split; [|split; [|split; [|split; [|split; [|split; [|split]]]]]].
  - intros H. destruct (Uint32_defined b H) as [u Hu].
    unfold call, MakeRTU32ScaledIntToFloat64, RTU32ToFloat64, rtuScaledInt32ToFloat64.
    rewrite Hu. split; eexists; split; reflexivity.
  - intros H. destruct (Uint16_defined b H) as [u Hu].
    unfold call, MakeRTU16ScaledIntToFloat64, RTU16ToFloat64, rtuScaledInt16ToFloat64.
    rewrite Hu. split; eexists; split; reflexivity.
  - unfold RTU32ToFloat64. now rewrite Uint32_firstn.
  - unfold rtuScaledInt32ToFloat64. now rewrite Uint32_firstn.
  - unfold RTU16ToFloat64. now rewrite Uint16_firstn.
  - unfold rtuScaledInt16ToFloat64. now rewrite Uint16_firstn.
  - intros H. unfold RTU32ToFloat64, rtuScaledInt32ToFloat64.
    rewrite (Uint32_short b H). split; reflexivity.
  - intros H. unfold RTU16ToFloat64, rtuScaledInt16ToFloat64.
    rewrite (Uint16_short b H). split; reflexivity.
Qed.

Lemma decoders_total_witness :
  (exists v, RTU32ToFloat64 [x40; x50; x00; x00] = Some v) /\
  (exists v, RTU16ToFloat64 [x04; xd2] = Some v) /\
  RTU32ToFloat64 [x04; xd2] = None.
Proof.
  destruct (decoders_total [x40; x50; x00; x00] f64_10) as [H4 _].
  destruct (decoders_total [x04; xd2] f64_10) as (_ & H2 & _ & _ & _ & _ & S4 & _).
  split; [|split].
  - destruct (H4 ltac:(simpl; lia)) as [[v [Hv _]] _]. exists v. exact Hv.
  - destruct (H2 ltac:(simpl; lia)) as [[v [Hv _]] _]. exists v. exact Hv.
  - apply S4. simpl. lia.
Defined.

(** ** Running computations *)

Lemma bind_Done {A B} (m : M A) (k : A -> M B) w a w1 :
  m w = Done a w1 -> bind m k w = k a w1.
Proof. unfold bind. intros ->. reflexivity. Qed.

Lemma bind_Aborted {A B} (m : M A) (k : A -> M B) w why w1 :
  m w = Aborted why w1 -> bind m k w = Aborted why w1.
Proof. unfold bind. intros ->. reflexivity. Qed.

Lemma bind_ext {A B} (m : M A) (k1 k2 : A -> M B) w :
  (forall a w', k1 a w' = k2 a w') -> bind m k1 w = bind m k2 w.
Proof. intros H. unfold bind. destruct (m w); [apply H | reflexivity]. Qed.

Lemma bind_assoc {A B C} (m : M A) (k : A -> M B) (h : B -> M C) w :
  bind (bind m k) h w = bind m (fun a => bind (k a) h) w.
Proof. unfold bind. destruct (m w); reflexivity. Qed.

Lemma grows_ret {A} (a : A) : grows (ret a).
Proof. intros w. exists []. simpl. now rewrite app_nil_r. Qed.

Lemma grows_abort {A} why : grows (@abort A why).
Proof. intros w. exists []. simpl. now rewrite app_nil_r. Qed.

Lemma grows_bind {A B} (m : M A) (k : A -> M B) :
  grows m -> (forall a, grows (k a)) -> grows (bind m k).
Proof.
  intros Hm Hk w. destruct (Hm w) as [e1 H1]. unfold bind.
  destruct (m w) as [a w1|why w1]; simpl in *.
  - destruct (Hk a w1) as [e2 H2]. exists (e1 ++ e2).
    rewrite H2, H1. now rewrite app_assoc.
  - exists e1. exact H1.
Qed.

Lemma grows_emit e : grows (emit e).
Proof. intros w. exists [e]. reflexivity. Qed.

Lemma grows_modify f : grows (modify f).
Proof. intros w. exists []. simpl. now rewrite app_nil_r. Qed.

Lemma grows_get_engine : grows get_engine.
Proof. intros w. exists []. simpl. now rewrite app_nil_r. Qed.

Lemma grows_time_Sleep ms : grows (time_Sleep ms).
Proof. intros w. exists [EvSleep ms]. reflexivity. Qed.

Lemma grows_time_Now : grows time_Now.
Proof. intros w. exists []. simpl. now rewrite app_nil_r. Qed.

Lemma grows_call f b : grows (call f b).
Proof. unfold call. destruct (f b); [apply grows_ret | apply grows_abort]. Qed.

Lemma grows_read_registers p a n : grows (read_registers p a n).
Proof. intros w. eexists. reflexivity. Qed.

Create HintDb grows.
#[local] Hint Resolve grows_ret grows_abort grows_emit grows_modify
  grows_get_engine grows_time_Sleep grows_time_Now grows_call
  grows_read_registers : grows.

Ltac grows_tac :=
  repeat first
    [ progress (intros)
    | apply grows_bind
    | match goal with
      | |- grows (if ?c then _ else _) => destruct c
      | |- grows (match ?r with inl _ => _ | inr _ => _ end) => destruct r
      | |- grows (match ?r with Some _ => _ | None => _ end) => destruct r
      end
    | solve [ auto with grows ]
    | unfold log_Printf ].

Lemma grows_query snip : grows (query snip).
Proof. unfold query. grows_tac. Qed.
#[local] Hint Resolve grows_query : grows.

Lemma grows_retry_loop n : forall rc snip, grows (retry_loop n rc snip).
Proof.
  induction n as [|n IH]; intros rc snip; simpl.
  - auto with grows.
  - grows_tac.
Qed.
#[local] Hint Resolve grows_retry_loop : grows.

Lemma grows_settle p snip : grows (settle p snip).
Proof. unfold settle. grows_tac. Qed.
#[local] Hint Resolve grows_settle : grows.

Lemma grows_serve p snip : grows (serve p snip).
Proof. unfold serve. grows_tac. Qed.
#[local] Hint Resolve grows_serve : grows.

Lemma grows_poll input : forall p, grows (poll p input).
Proof.
  induction input as [|s rest IH]; intros p; simpl.
  - auto with grows.
  - grows_tac.
Qed.

(** ** The query executor, in closed form *)

Lemma query_closed snip w :
  query snip w =
  match dispatch snip with
  | None => Aborted FatalExit
              (world (counted snip (engine w)) (clock w) (issued w) (trace w))
  | Some p =>
      let r := reply (client (engine w)) p (issued w)
                     (handler (counted snip (engine w)))
                     (QuerySnip.OpCode snip) (QuerySnip.ReadLen snip) in
      Done r (world (counted snip (engine w)) (clock w) (S (issued w))
                    (trace w ++ query_events w snip p r))
  end.
Proof.
  unfold query, dispatch, bind, modify, abort, ret, get_engine, read_registers,
    log_Printf, emit, world, counted, query_events; simpl.
  destruct (QuerySnip.ReadLen snip <=? 0); [reflexivity|].
  destruct (QuerySnip.FuncCode snip =? ReadInputReg); simpl.
  - destruct (ReadInputRegisters _ _ _ _ _); simpl; [reflexivity|].
    destruct (verbose (engine w)); simpl; [|reflexivity].
    now rewrite <- app_assoc.
  - destruct (QuerySnip.FuncCode snip =? ReadHoldingReg); simpl; [|reflexivity].
    destruct (ReadHoldingRegisters _ _ _ _ _); simpl; [reflexivity|].
    destruct (verbose (engine w)); simpl; [|reflexivity].
    now rewrite <- app_assoc.
Qed.

Lemma handler_counted snip q :
  handler (counted snip q) = addressed (Timeout (handler q)) snip.
Proof. reflexivity. Qed.

Lemma query_attempt snip w :
  query snip w =
  match dispatch snip, attempt (client (engine w)) (Timeout (handler (engine w)))
                               snip (issued w) with
  | Some p, Some r =>
      Done r (world (counted snip (engine w)) (clock w) (S (issued w))
                    (trace w ++ query_events w snip p r))
  | _, _ => Aborted FatalExit
              (world (counted snip (engine w)) (clock w) (issued w) (trace w))
  end.
Proof.
  rewrite query_closed. unfold attempt.
  destruct (dispatch snip); reflexivity.
Qed.


(** ** Projections of a trace *)

Lemma dialogue_app a b : dialogue (a ++ b) = dialogue a ++ dialogue b.
Proof. apply flat_map_app. Qed.
Lemma outputs_app a b : outputs (a ++ b) = outputs a ++ outputs b.
Proof. apply flat_map_app. Qed.
Lemma controls_app a b : controls (a ++ b) = controls a ++ controls b.
Proof. apply flat_map_app. Qed.
Lemma received_app a b : received (a ++ b) = received a ++ received b.
Proof. apply flat_map_app. Qed.
Lemma requests_app a b : requests (a ++ b) = requests a ++ requests b.
Proof. apply flat_map_app. Qed.
Lemma request_times_app a b :
  request_times (a ++ b) = request_times a ++ request_times b.
Proof. apply flat_map_app. Qed.
Lemma reported_app a b : reported (a ++ b) = reported a ++ reported b.
Proof. apply flat_map_app. Qed.
Lemma reported_absent_app a b :
  reported_absent (a ++ b) = reported_absent a ++ reported_absent b.
Proof. apply flat_map_app. Qed.

Create Rewrite HintDb proj.
#[local] Hint Rewrite dialogue_app outputs_app controls_app received_app
  requests_app request_times_app reported_app reported_absent_app
  app_nil_r : proj.

Lemma controls_dialogue tr : controls tr = rights (dialogue tr).
Proof.
  induction tr as [|e tr IH]; [reflexivity|].
  destruct e; simpl; try exact IH. now rewrite IH.
Qed.

Lemma received_dialogue tr : received tr = lefts (dialogue tr).
Proof.
  induction tr as [|e tr IH]; [reflexivity|].
  destruct e; simpl; try exact IH. now rewrite IH.
Qed.

Lemma requests_length tr :
  List.length (requests tr) = List.length (request_times tr).
Proof.
  induction tr as [|e tr IH]; [reflexivity|].
  destruct e; simpl; auto.
Qed.

(** The events of one accepted query: one request, at the current
    time, and nothing for the streams. *)
Lemma query_events_facts w snip p r :
  dialogue (query_events w snip p r) = [] /\
  outputs (query_events w snip p r) = [] /\
  request_times (query_events w snip p r) = [clock w] /\
  requests (query_events w snip p r) =
    [(p, addressed (Timeout (handler (engine w))) snip,
      QuerySnip.OpCode snip, QuerySnip.ReadLen snip)] /\
  reported (query_events w snip p r) = [] /\
  reported_absent (query_events w snip p r) = [].
Proof.
  unfold query_events. destruct r as [b|err]; simpl.
  - repeat split.
  - destruct (verbose (engine w)); repeat split.
Qed.

(** ** The retry loop *)

Lemma effect_refl w : effect w w 0 0 0 [].
Proof.
  unfold effect. rewrite app_nil_r.
  repeat split; simpl; lia.
Qed.

Lemma effect_trans w1 w2 w3 r1 c1 m1 e1 r2 c2 m2 e2 :
  effect w1 w2 r1 c1 m1 e1 -> effect w2 w3 r2 c2 m2 e2 ->
  effect w1 w3 (r1 + r2) (c1 + c2) (m1 + m2) (e1 ++ e2).
Proof.
  unfold effect. intros (A1 & A2 & A3 & A4 & A5 & A6 & A7 & A8)
                        (B1 & B2 & B3 & B4 & B5 & B6 & B7 & B8).
  repeat split; try congruence; try lia.
  rewrite B8, A8. now rewrite app_assoc.
Qed.

Lemma times_snoc n : forall c,
  times c (S n) = times c n ++ [c + 100 * Z.of_nat n].
Proof.
  induction n as [|n IH]; intros c.
  - simpl. f_equal. lia.
  - change (times c (S (S n))) with (c :: times (c + 100) (S n)).
    rewrite IH. change (times c (S n)) with (c :: times (c + 100) n).
    replace (c + 100 * Z.of_nat (S n)) with (c + 100 + 100 * Z.of_nat n) by lia.
    reflexivity.
Qed.

Lemma times_length n : forall c, List.length (times c n) = n.
Proof. induction n; intros; simpl; auto. Qed.

Lemma attempt_inv cl t snip i r :
  attempt cl t snip i = Some r ->
  exists p, dispatch snip = Some p /\
            reply cl p i (addressed t snip) (QuerySnip.OpCode snip)
                  (QuerySnip.ReadLen snip) = r.
Proof.
  unfold attempt. destruct (dispatch snip) as [p|]; [|discriminate].
  intros [= <-]. exists p. split; reflexivity.
Qed.

(** One failed attempt. *)
Lemma retry_loop_fail n rc snip w err :
  attempt (client (engine w)) (Timeout (handler (engine w))) snip (issued w)
    = Some (inr err) ->
  exists w' evs,
    retry_loop (S n) rc snip w = retry_loop n (rc + 1) snip w' /\
    effect w w' 1 1 100 evs /\
    dialogue evs = [] /\ outputs evs = [] /\ request_times evs = [clock w].
Proof.
  intros H. destruct (attempt_inv _ _ _ _ _ H) as (p & Hp & Hr).
  eexists (world (IncreaseModbusReconnectCounter (counted snip (engine w)))
                 (clock w + 100) (S (issued w))
                 (trace w ++ query_events w snip p (inr err) ++
                    [EvLog (LogRetry (QuerySnip.DeviceId snip) (rc + 1)
                                     MaxRetryCount); EvSleep 100])).
  exists (query_events w snip p (inr err) ++
            [EvLog (LogRetry (QuerySnip.DeviceId snip) (rc + 1) MaxRetryCount);
             EvSleep 100]).
  split; [|split].
  - simpl retry_loop. unfold bind at 1. rewrite query_attempt, Hp, H.
    unfold bind, modify, log_Printf, emit, time_Sleep, world; simpl.
    now rewrite <- !app_assoc.
  - unfold effect, world; simpl. rewrite Nat.add_1_r. repeat split.
  - destruct (query_events_facts w snip p (inr err)) as (D & O & T & _).
    autorewrite with proj. rewrite D, O, T. repeat split.
Qed.

(** [k] failed attempts in a row. *)
Lemma retry_loop_fails k : forall n rc snip w,
  fails (client (engine w)) (Timeout (handler (engine w))) snip (issued w) k
    = true ->
  exists w' evs,
    retry_loop (k + n) rc snip w = retry_loop n (rc + Z.of_nat k) snip w' /\
    effect w w' k k (100 * Z.of_nat k) evs /\
    dialogue evs = [] /\ outputs evs = [] /\
    request_times evs = times (clock w) k.
Proof.
  induction k as [|k IH]; intros n rc snip w H.
  - exists w, []. replace (rc + Z.of_nat 0) with rc by lia.
    split; [reflexivity|]. split; [apply effect_refl|]. repeat split.
  - simpl in H.
    destruct (attempt _ _ snip (issued w)) as [[b|err]|] eqn:Ha;
      try discriminate.
    destruct (retry_loop_fail (k + n) rc snip w err Ha)
      as (w1 & e1 & R1 & E1 & D1 & O1 & T1).
    assert (E1' := E1).
    destruct E1' as (C1 & _ & TO1 & _ & _ & I1 & CL1 & _).
    rewrite <- C1, <- TO1 in H.
    replace (S (issued w)) with (issued w1) in H by (rewrite I1; lia).
    destruct (IH n (rc + 1) snip w1 H) as (w2 & e2 & R2 & E2 & D2 & O2 & T2).
    exists w2, (e1 ++ e2). split; [|split].
    + change (S k + n)%nat with (S (k + n)). rewrite R1, R2.
      f_equal. lia.
    + replace (100 * Z.of_nat (S k)) with (100 + 100 * Z.of_nat k) by lia.
      apply (effect_trans _ _ _ 1%nat 1%nat _ _ k k _ _ E1 E2).
    + autorewrite with proj. rewrite D1, D2, O1, O2, T1, T2, CL1.
      repeat split.
Qed.

(** A successful attempt. *)
Lemma retry_loop_hit n rc snip w reading v :
  attempt (client (engine w)) (Timeout (handler (engine w))) snip (issued w)
    = Some (inl reading) ->
  QuerySnip.Transform snip reading = Some v ->
  exists w' evs,
    retry_loop (S n) rc snip w = Done true w' /\
    effect w w' 1 0 0 evs /\
    dialogue evs = [inr (successSnip snip)] /\
    outputs evs = [QuerySnip.with_result snip v (clock w)] /\
    request_times evs = [clock w].
Proof.
  intros H Hv. destruct (attempt_inv _ _ _ _ _ H) as (p & Hp & Hr).
  eexists (world (counted snip (engine w)) (clock w) (S (issued w))
                 (trace w ++ query_events w snip p (inl reading) ++
                    [EvOutput (QuerySnip.with_result snip v (clock w));
                     EvControl (successSnip snip)])).
  exists (query_events w snip p (inl reading) ++
            [EvOutput (QuerySnip.with_result snip v (clock w));
             EvControl (successSnip snip)]).
  split; [|split].
  - simpl retry_loop. unfold bind at 1. rewrite query_attempt, Hp, H.
    unfold bind, call. rewrite Hv.
    unfold ret, time_Now, emit, world; simpl.
    now rewrite <- !app_assoc.
  - unfold effect, world; simpl. rewrite Nat.add_1_r, !Z.add_0_r.
    repeat split.
  - destruct (query_events_facts w snip p (inl reading)) as (D & O & T & _).
    autorewrite with proj. rewrite D, O, T. repeat split.
Qed.

(** An attempt that ends the process: the request is refused, or the
    transform faults on the payload. *)
Lemma retry_loop_abort n rc snip w :
  deadly (client (engine w)) (Timeout (handler (engine w))) snip (issued w) ->
  exists why w', retry_loop (S n) rc snip w = Aborted why w'.
Proof.
  intros [H|(reading & H & Hv)].
  - simpl retry_loop. unfold bind at 1. rewrite query_attempt, H.
    destruct (dispatch snip); eauto.
  - destruct (attempt_inv _ _ _ _ _ H) as (p & Hp & Hr).
    simpl retry_loop. unfold bind at 1. rewrite query_attempt, Hp, H.
    unfold bind, call. rewrite Hv. unfold abort. eauto.
Qed.


(** ** Serving one request *)

Lemma serve_arrived p snip w :
  serve p snip w =
  bind (retry_loop (Z.to_nat MaxRetryCount) 0 snip)
       (fun ok => (if ok then ret tt else emit (EvControl (errorSnip snip))) ;;
                  ret (QuerySnip.DeviceId snip))
       (arrived p snip w).
Proof.
  unfold serve, arrived, arrival, pause, settle, world.
  unfold bind at 1 2. unfold emit at 1. 
  destruct (p =? QuerySnip.DeviceId snip); simpl.
  - rewrite Z.add_0_r. reflexivity.
  - unfold time_Sleep. simpl. now rewrite <- app_assoc.
Qed.

Lemma effect_arrived p snip w :
  effect w (arrived p snip w) 0 0 (pause p snip) (arrival p snip).
Proof.
  unfold effect, arrived, world; simpl. rewrite Nat.add_0_r.
  repeat split; lia.
Qed.

Lemma arrival_facts p snip :
  dialogue (arrival p snip) = [inl snip] /\ outputs (arrival p snip) = [] /\
  request_times (arrival p snip) = [].
Proof.
  unfold arrival. destruct (p =? QuerySnip.DeviceId snip); repeat split.
Qed.

(** A request answered on attempt [k + 1]. *)
Lemma serve_succeeds p snip w k reading v :
  (k < Z.to_nat MaxRetryCount)%nat ->
  fails (client (engine w)) (Timeout (handler (engine w))) snip (issued w) k
    = true ->
  attempt (client (engine w)) (Timeout (handler (engine w))) snip
          (issued w + k) = Some (inl reading) ->
  QuerySnip.Transform snip reading = Some v ->
  exists w' evs,
    serve p snip w = Done (QuerySnip.DeviceId snip) w' /\
    effect w w' (S k) k (pause p snip + 100 * Z.of_nat k) evs /\
    dialogue evs = [inl snip; inr (successSnip snip)] /\
    outputs evs = [QuerySnip.with_result snip v (clock w')] /\
    request_times evs = times (clock w + pause p snip) (S k).
Proof.
  intros Hk Hf Ha Hv. rewrite serve_arrived.
  set (wa := arrived p snip w).
  destruct (retry_loop_fails k (Z.to_nat MaxRetryCount - k) 0 snip wa Hf)
    as (w1 & e1 & R1 & E1 & D1 & O1 & T1).
  replace (k + (Z.to_nat MaxRetryCount - k))%nat
    with (Z.to_nat MaxRetryCount) in R1 by lia.
  destruct (Z.to_nat MaxRetryCount - k)%nat as [|n] eqn:En; [lia|].
  assert (E1' := E1). destruct E1' as (C1 & _ & TO1 & _ & _ & I1 & CL1 & _).
  assert (Ha1 : attempt (client (engine w1)) (Timeout (handler (engine w1)))
                        snip (issued w1) = Some (inl reading)).
  { rewrite C1, TO1, I1. exact Ha. }
  destruct (retry_loop_hit n (0 + Z.of_nat k) snip w1 reading v Ha1 Hv)
    as (w2 & e2 & R2 & E2 & D2 & O2 & T2).
  destruct (arrival_facts p snip) as (D0 & O0 & T0).
  exists w2, (arrival p snip ++ e1 ++ e2). split; [|split].
  - unfold bind at 1. rewrite R1, R2. reflexivity.
  - pose proof (effect_trans _ _ _ _ _ _ _ _ _ _ _
                  (effect_arrived p snip w)
                  (effect_trans _ _ _ _ _ _ _ _ _ _ _ E1 E2)) as E.
    replace (k + 1)%nat with (S k) in E by lia.
    replace (k + 0)%nat with k in E by lia.
    replace (pause p snip + (100 * Z.of_nat k + 0))
      with (pause p snip + 100 * Z.of_nat k) in E by lia.
    exact E.
  - autorewrite with proj. rewrite D0, D1, D2, O0, O1, O2, T0, T1, T2.
    destruct E2 as (_ & _ & _ & _ & _ & _ & CL2 & _).
    rewrite CL2, Z.add_0_r, times_snoc, CL1.
    repeat split.
Qed.

(** A request that fails on every attempt of the budget. *)
Lemma serve_exhausted p snip w :
  fails (client (engine w)) (Timeout (handler (engine w))) snip (issued w)
        (Z.to_nat MaxRetryCount) = true ->
  exists w' evs,
    serve p snip w = Done (QuerySnip.DeviceId snip) w' /\
    effect w w' (Z.to_nat MaxRetryCount) (Z.to_nat MaxRetryCount)
           (pause p snip + 100 * MaxRetryCount) evs /\
    dialogue evs = [inl snip; inr (errorSnip snip)] /\
    outputs evs = [] /\
    request_times evs = times (clock w + pause p snip) (Z.to_nat MaxRetryCount).
Proof.
  intros Hf. rewrite serve_arrived.
  set (wa := arrived p snip w).
  destruct (retry_loop_fails _ 0 0 snip wa Hf)
    as (w1 & e1 & R1 & E1 & D1 & O1 & T1).
  rewrite Nat.add_0_r in R1.
  destruct (arrival_facts p snip) as (D0 & O0 & T0).
  exists (world (engine w1) (clock w1) (issued w1)
                (trace w1 ++ [EvControl (errorSnip snip)])),
         (arrival p snip ++ e1 ++ [EvControl (errorSnip snip)]).
  split; [|split].
  - unfold bind at 1. rewrite R1. reflexivity.
  - pose proof (effect_trans _ _ _ _ _ _ _ _ _ _ _
                  (effect_arrived p snip w) E1) as E.
    unfold effect, world in E |- *. cbn [engine clock issued trace].
    destruct E as (A1 & A2 & A3 & A4 & A5 & A6 & A7 & A8).
    repeat split; try assumption.
    rewrite A8. now rewrite <- !app_assoc.
  - autorewrite with proj. rewrite D0, D1, O0, O1, T0, T1.
    repeat split.
Qed.

(** What the bus can do to one request: fail throughout, or fail [k]
    times and then answer or be refused. *)
Lemma attempts_cases cl t snip n : forall i,
  fails cl t snip i n = true \/
  exists k, (k < n)%nat /\ fails cl t snip i k = true /\
            (attempt cl t snip (i + k) = None \/
             exists reading, attempt cl t snip (i + k) = Some (inl reading)).
Proof.
  induction n as [|n IH]; intros i; [left; reflexivity|].
  simpl. destruct (attempt cl t snip i) as [[b|err]|] eqn:Ha.
  - right. exists 0%nat. rewrite Nat.add_0_r, Ha.
    split; [lia|]. split; [reflexivity|]. right. eauto.
  - destruct (IH (S i)) as [H|(k & Hk & Hf & H)]; [left; exact H|].
    right. exists (S k). simpl. rewrite Ha.
    replace (i + S k)%nat with (S i + k)%nat by lia.
    split; [lia|]. split; assumption.
  - right. exists 0%nat. rewrite Nat.add_0_r, Ha.
    split; [lia|]. split; [reflexivity|]. left. reflexivity.
Qed.

(** Every pass of the loop body ends in one of three ways. *)
Lemma serve_cases p snip w :
  let cl := client (engine w) in
  let t := Timeout (handler (engine w)) in
  fails cl t snip (issued w) (Z.to_nat MaxRetryCount) = true \/
  (exists k reading v,
      (k < Z.to_nat MaxRetryCount)%nat /\
      fails cl t snip (issued w) k = true /\
      attempt cl t snip (issued w + k) = Some (inl reading) /\
      QuerySnip.Transform snip reading = Some v) \/
  (exists k why w',
      deadly cl t snip (issued w + k) /\ serve p snip w = Aborted why w').
Proof.
  intros cl t.
  destruct (attempts_cases cl t snip (Z.to_nat MaxRetryCount) (issued w))
    as [H|(k & Hk & Hf & H)]; [left; exact H|].
  right.
  assert (Hab : deadly cl t snip (issued w + k) ->
                exists why w', serve p snip w = Aborted why w').
  { intros Hc. rewrite serve_arrived.
    destruct (retry_loop_fails k (Z.to_nat MaxRetryCount - k) 0 snip
                               (arrived p snip w) Hf)
      as (w1 & e1 & R1 & E1 & _).
    replace (k + (Z.to_nat MaxRetryCount - k))%nat
      with (Z.to_nat MaxRetryCount) in R1 by lia.
    destruct (Z.to_nat MaxRetryCount - k)%nat as [|n] eqn:En; [lia|].
    destruct E1 as (C1 & _ & TO1 & _ & _ & I1 & _).
    destruct (retry_loop_abort n (0 + Z.of_nat k) snip w1) as (why & w' & R2).
    { rewrite C1, TO1, I1. exact Hc. }
    exists why, w'. unfold bind at 1. rewrite R1, R2. reflexivity. }
  destruct H as [H|(reading & H)].
  - right. destruct Hab as (why & w' & R); [left; exact H|].
    exists k, why, w'. split; [left; exact H | exact R].
  - destruct (QuerySnip.Transform snip reading) as [v|] eqn:Hv.
    + left. exists k, reading, v. repeat split; assumption.
    + right. destruct Hab as (why & w' & R); [right; eauto|].
      exists k, why, w'. split; [right; eauto | exact R].
Qed.

(** A well-formed request on a faithful client never ends the
    process. *)
Lemma well_formed_not_deadly cl t snip i :
  faithful cl -> well_formed snip -> ~ deadly cl t snip i.
Proof.
  intros Hcl [Hd Hdec] [H|(reading & H & Hv)].
  - unfold attempt in H. destruct (dispatch snip); [discriminate | auto].
  - destruct (attempt_inv _ _ _ _ _ H) as (p & _ & Hr).
    apply Hcl in Hr. exact (Hdec reading Hr Hv).
Qed.

(** ** The loop over the stream *)

Lemma poll_app pre : forall p rest w,
  poll p (pre ++ rest) w = bind (poll p pre) (fun p' => poll p' rest) w.
Proof.
  induction pre as [|s pre IH]; intros p rest w; [reflexivity|].
  simpl. rewrite bind_assoc. apply bind_ext. intros a w'. apply IH.
Qed.

Lemma Transform_next pre snip rest w0 p w :
  Transform pre w0 = Done p w ->
  Transform (pre ++ snip :: rest) w0 =
  bind (serve p snip) (fun p' => poll p' rest) w.
Proof.
  intros H. unfold Transform in *. rewrite poll_app.
  rewrite (bind_Done _ _ _ _ _ H). reflexivity.
Qed.

(** The trace of a pass starts with the receive and the settle pause,
    whatever follows. *)
Lemma serve_trace {A} p snip (K : Z -> M A) w :
  (forall a, grows (K a)) ->
  exists evs,
    trace (final (bind (serve p snip) K w)) = trace w ++ arrival p snip ++ evs.
Proof.
  intros HK. unfold bind at 1. rewrite serve_arrived.
  set (m := bind _ _).
  assert (Hm : grows (bind m K)).
  { apply grows_bind; [|exact HK]. unfold m. grows_tac. }
  destruct (Hm (arrived p snip w)) as [evs H]. exists evs.
  unfold bind at 1 in H. rewrite H.
  unfold arrived, world; simpl. now rewrite <- app_assoc.
Qed.

(** An accepted query issues its request at the current time. *)
Lemma first_query {A} snip (k : Response -> M A) w pr :
  (forall r, grows (k r)) ->
  dispatch snip = Some pr ->
  exists evs ts,
    trace (final (bind (query snip) k w)) = trace w ++ evs /\
    request_times evs = clock w :: ts.
Proof.
  intros Hk Hd. unfold bind. rewrite query_closed, Hd. cbv zeta. cbv iota.
  match goal with |- context [k ?r ?w1] => destruct (Hk r w1) as [evs H] end.
  eexists. exists (request_times evs). rewrite H. unfold world at 1.
  cbn [trace]. rewrite <- app_assoc. split; [reflexivity|].
  autorewrite with proj.
  match goal with
  | |- context [query_events ?w ?s ?p ?r] =>
      destruct (query_events_facts w s p r) as (_ & _ & T & _); rewrite T
  end.
  reflexivity.
Qed.

Lemma retry_loop_first {A} n rc snip (K : bool -> M A) w pr :
  (forall a, grows (K a)) ->
  dispatch snip = Some pr ->
  exists evs ts,
    trace (final (bind (retry_loop (S n) rc snip) K w)) = trace w ++ evs /\
    request_times evs = clock w :: ts.
Proof.
  intros HK Hd. simpl retry_loop. rewrite bind_assoc.
  apply first_query with (pr := pr); [|exact Hd].
  intros r. apply grows_bind; [|exact HK]. grows_tac.
Qed.

(** When the request is accepted, the first query follows the settle
    pause at once. *)
Lemma serve_first_request {A} p snip (K : Z -> M A) w pr :
  (forall a, grows (K a)) ->
  dispatch snip = Some pr ->
  exists evs ts,
    trace (final (bind (serve p snip) K w)) = trace w ++ evs /\
    request_times evs = (clock w + pause p snip) :: ts.
Proof.
  intros HK Hd. unfold bind at 1. rewrite serve_arrived.
  change (Z.to_nat MaxRetryCount) with 5%nat.
  match goal with
  | |- context [bind (retry_loop 5 0 snip) ?k (arrived p snip w)] =>
      destruct (retry_loop_first 4 0 snip (fun ok => bind (k ok) K)
                                 (arrived p snip w) pr) as (evs & ts & H & T);
      [ intros a; apply grows_bind; [grows_tac | exact HK] | exact Hd | ];
      rewrite <- bind_assoc in H; unfold bind at 1 in H
  end.
  exists (arrival p snip ++ evs), ts. split.
  - rewrite H. unfold arrived, world; simpl. now rewrite <- app_assoc.
  - destruct (arrival_facts p snip) as (_ & _ & T0).
    autorewrite with proj. rewrite T0, T. reflexivity.
Qed.

(** ** The fixtures *)

Lemma flaky_faithful n : faithful (flaky n).
Proof.
  intros p i h a q b. destruct p; simpl;
    destruct (i <? n)%nat; try discriminate;
    destruct (q =? 2) eqn:Hq; try discriminate;
    intros [= <-]; apply Z.eqb_eq in Hq; subst q; reflexivity.
Qed.

Lemma two_devices_faithful : faithful two_devices.
Proof.
  intros p i h a q b. destruct p; simpl; try discriminate.
  destruct (_ || _); simpl; try discriminate.
  destruct (q =? 2) eqn:Hq; try discriminate.
  intros [= <-]; apply Z.eqb_eq in Hq; subst q; reflexivity.
Qed.

Lemma two_devices_static : static two_devices.
Proof. intros p i j h a q. destruct p; reflexivity. Qed.

Lemma decodes_two_registers b :
  Z.of_nat (List.length b) = 2 * 2 -> RTU32ToFloat64 b <> None.
Proof.
  intros H. unfold RTU32ToFloat64.
  destruct (Uint32_defined b) as [u ->]; [lia | discriminate].
Qed.

Lemma voltage_well_formed d : well_formed (voltage d).
Proof. split; [discriminate | apply decodes_two_registers]. Qed.

Lemma holding_well_formed d : well_formed (holding d).
Proof. split; [discriminate | apply decodes_two_registers]. Qed.

Lemma sdm_sound : sound_producer sdm.
Proof. intros d. split; [reflexivity | apply voltage_well_formed]. Qed.

Lemma janitza_sound : sound_producer janitza.
Proof. intros d. split; [reflexivity | apply holding_well_formed]. Qed.

(** * The polling loop *)

(** C1.  A request dequeued by the polling loop whose query first
    succeeds on attempt [k], with [1 <= k <= MaxRetryCount]: the loop
    puts exactly one control snip on the control stream, the OK snip
    of that device, and exactly one snip on the output stream, the
    request with its value decoded by its transform and its timestamp
    stamped; it issues [k] requests for it and no more, the reconnect
    counter grows by [k - 1], and the loop goes on with the rest of
    the input. *)
Theorem success_on_attempt_k pre snip rest w0 p w (k : nat) reading v :
  Transform pre w0 = Done p w ->
  (1 <= k <= Z.to_nat MaxRetryCount)%nat ->
  fails (client (engine w)) (Timeout (handler (engine w))) snip (issued w)
        (k - 1) = true ->
  attempt (client (engine w)) (Timeout (handler (engine w))) snip
          (issued w + (k - 1)) = Some (inl reading) ->
  QuerySnip.Transform snip reading = Some v ->
  exists w' evs,
    Transform (pre ++ snip :: rest) w0
      = poll (QuerySnip.DeviceId snip) rest w' /\
    trace w' = trace w ++ evs /\
    received evs = [snip] /\
    controls evs = [successSnip snip] /\
    ControlSnip.Type_ (successSnip snip) = CONTROLSNIP_OK /\
    ControlSnip.DeviceId (successSnip snip) = QuerySnip.DeviceId snip /\
    outputs evs = [QuerySnip.with_result snip v (clock w')] /\
    List.length (requests evs) = k /\
    issued w' = (issued w + k)%nat /\
    ModbusReconnects (status (engine w'))
      = ModbusReconnects (status (engine w)) + (Z.of_nat k - 1).
Proof.
  intros Hpre Hk Hf Ha Hv.
  destruct (serve_succeeds p snip w (k - 1) reading v)
    as (w' & evs & S & E & D & O & T); try assumption; [lia|].
  exists w', evs.
  rewrite (Transform_next _ _ _ _ _ _ Hpre), (bind_Done _ _ _ _ _ S).
  destruct E as (_ & _ & _ & _ & Rc & I & _ & Tr).
  rewrite received_dialogue, controls_dialogue, requests_length, D, O, T.
  rewrite times_length, Rc, I. repeat split; try assumption; lia.
Qed.

Lemma success_on_attempt_k_witness :
  exists w' evs,
    Transform ([] ++ voltage 7 :: []) (boot (flaky 2))
      = poll 7 [] w' /\
    trace w' = trace (boot (flaky 2)) ++ evs /\
    received evs = [voltage 7] /\
    controls evs = [successSnip (voltage 7)] /\
    ControlSnip.Type_ (successSnip (voltage 7)) = CONTROLSNIP_OK /\
    ControlSnip.DeviceId (successSnip (voltage 7)) = 7 /\
    outputs evs = [QuerySnip.with_result (voltage 7) f64_3_25 (clock w')] /\
    List.length (requests evs) = 3%nat /\
    issued w' = (issued (boot (flaky 2)) + 3)%nat /\
    ModbusReconnects (status (engine w'))
      = ModbusReconnects (status (engine (boot (flaky 2)))) + (Z.of_nat 3 - 1).
Proof.
  apply (success_on_attempt_k [] (voltage 7) [] (boot (flaky 2)) 0
                              (boot (flaky 2)) 3 payload_3_25 f64_3_25).
  - reflexivity.
  - vm_compute. lia.
  - reflexivity.
  - reflexivity.
  - reflexivity.
Defined.

(** C2.  A request dequeued by the polling loop whose query fails on
    all [MaxRetryCount] attempts: the loop puts exactly one control
    snip on the control stream, the ERROR snip naming that device, and
    nothing on the output stream; the reconnect counter grows by
    [MaxRetryCount]; the loop then goes on with the rest of the
    input, in which the failed snip does not reappear. *)
Theorem failure_on_every_attempt pre snip rest w0 p w :
  Transform pre w0 = Done p w ->
  fails (client (engine w)) (Timeout (handler (engine w))) snip (issued w)
        (Z.to_nat MaxRetryCount) = true ->
  exists w' evs,
    Transform (pre ++ snip :: rest) w0
      = poll (QuerySnip.DeviceId snip) rest w' /\
    trace w' = trace w ++ evs /\
    received evs = [snip] /\
    controls evs = [errorSnip snip] /\
    ControlSnip.Type_ (errorSnip snip) = CONTROLSNIP_ERROR /\
    ControlSnip.DeviceId (errorSnip snip) = QuerySnip.DeviceId snip /\
    outputs evs = [] /\
    List.length (requests evs) = Z.to_nat MaxRetryCount /\
    ModbusReconnects (status (engine w'))
      = ModbusReconnects (status (engine w)) + MaxRetryCount.
Proof.
  intros Hpre Hf.
  destruct (serve_exhausted p snip w Hf) as (w' & evs & S & E & D & O & T).
  exists w', evs.
  rewrite (Transform_next _ _ _ _ _ _ Hpre), (bind_Done _ _ _ _ _ S).
  destruct E as (_ & _ & _ & _ & Rc & _ & _ & Tr).
  rewrite received_dialogue, controls_dialogue, requests_length, D, O, T.
  rewrite times_length, Rc. repeat split; assumption.
Qed.

Lemma failure_on_every_attempt_witness :
  exists w' evs,
    Transform ([] ++ voltage 7 :: [voltage 8]) (boot (flaky 5))
      = poll 7 [voltage 8] w' /\
    trace w' = trace (boot (flaky 5)) ++ evs /\
    received evs = [voltage 7] /\
    controls evs = [errorSnip (voltage 7)] /\
    ControlSnip.Type_ (errorSnip (voltage 7)) = CONTROLSNIP_ERROR /\
    ControlSnip.DeviceId (errorSnip (voltage 7)) = 7 /\
    outputs evs = [] /\
    List.length (requests evs) = Z.to_nat MaxRetryCount /\
    ModbusReconnects (status (engine w'))
      = ModbusReconnects (status (engine (boot (flaky 5)))) + MaxRetryCount.
Proof.
  apply (failure_on_every_attempt [] (voltage 7) [voltage 8] (boot (flaky 5)) 0
                                  (boot (flaky 5))).
  - reflexivity.
  - reflexivity.
Defined.

(** A completed pass: what it leaves on the streams, and when its last
    request was issued, [backoff] before its end. *)
Lemma serve_done p snip w p' w' :
  serve p snip w = Done p' w' ->
  p' = QuerySnip.DeviceId snip /\
  client (engine w') = client (engine w) /\
  exists evs c ts backoff,
    trace w' = trace w ++ evs /\
    dialogue evs = [inl snip; inr c] /\
    request_times evs = ts ++ [clock w' - backoff] /\
    ((c = successSnip snip /\ backoff = 0) \/
     (c = errorSnip snip /\ backoff = 100)).
Proof.
  intros H.
  destruct (serve_cases p snip w)
    as [Hf|[(k & reading & v & Hk & Hf & Ha & Hv)|(k & why & w1 & _ & Hab)]].
  - destruct (serve_exhausted p snip w Hf) as (w1 & evs & S & E & D & O & T).
    rewrite S in H. injection H as <- <-.
    destruct E as (C & _ & _ & _ & _ & _ & CL & Tr).
    split; [reflexivity|]. split; [exact C|].
    exists evs, (errorSnip snip), (times (clock w + pause p snip) 4), 100.
    repeat split; try assumption; [|right; split; reflexivity].
    rewrite T. change (Z.to_nat MaxRetryCount) with 5%nat.
    rewrite times_snoc. f_equal. f_equal. rewrite CL.
    unfold MaxRetryCount. simpl. lia.
  - destruct (serve_succeeds p snip w k reading v Hk Hf Ha Hv)
      as (w1 & evs & S & E & D & O & T).
    rewrite S in H. injection H as <- <-.
    destruct E as (C & _ & _ & _ & _ & _ & CL & Tr).
    split; [reflexivity|]. split; [exact C|].
    exists evs, (successSnip snip), (times (clock w + pause p snip) k), 0.
    repeat split; try assumption; [|left; split; reflexivity].
    rewrite T, times_snoc. f_equal. f_equal. rewrite CL. lia.
  - rewrite Hab in H. discriminate.
Qed.

(** On a faithful client a well-formed request is always served to
    its end. *)
Lemma serve_well_formed p snip w :
  faithful (client (engine w)) -> well_formed snip ->
  exists w', serve p snip w = Done (QuerySnip.DeviceId snip) w'.
Proof.
  intros Hcl Hwf.
  destruct (serve_cases p snip w)
    as [Hf|[(k & reading & v & Hk & Hf & Ha & Hv)|(k & why & w1 & Hd & _)]].
  - destruct (serve_exhausted p snip w Hf) as (w1 & evs & S & _). eauto.
  - destruct (serve_succeeds p snip w k reading v Hk Hf Ha Hv)
      as (w1 & evs & S & _). eauto.
  - exfalso. exact (well_formed_not_deadly _ _ _ _ Hcl Hwf Hd).
Qed.

Lemma poll_dialogue input : forall p w p' w',
  poll p input w = Done p' w' ->
  exists evs cs,
    trace w' = trace w ++ evs /\
    dialogue evs = interleave input cs /\
    Forall2 answers input cs.
Proof.
  induction input as [|s rest IH]; intros p w p' w' H.
  - injection H as <- <-. exists [], []. simpl. rewrite app_nil_r.
    repeat split. constructor.
  - simpl poll in H. unfold bind in H.
    destruct (serve p s w) as [p1 w1|] eqn:S; [|discriminate].
    destruct (serve_done _ _ _ _ _ S)
      as (_ & _ & e1 & c & ts & b & Tr1 & D1 & _ & Hc).
    destruct (IH p1 w1 p' w' H) as (e2 & cs & Tr2 & D2 & F).
    exists (e1 ++ e2), (c :: cs).
    autorewrite with proj. rewrite Tr2, Tr1, D1, D2, app_assoc.
    repeat split. constructor; [|exact F].
    destruct Hc as [[-> _]|[-> _]]; [left | right]; reflexivity.
Qed.

Lemma poll_well_formed input : forall p w,
  faithful (client (engine w)) -> Forall well_formed input ->
  exists p' w', poll p input w = Done p' w'.
Proof.
  induction input as [|s rest IH]; intros p w Hcl Hwf; [simpl; eauto|].
  inversion Hwf as [|? ? Hs Hrest]; subst.
  destruct (serve_well_formed p s w Hcl Hs) as (w1 & S).
  destruct (serve_done _ _ _ _ _ S) as (_ & C & _).
  rewrite <- C in Hcl.
  destruct (IH (QuerySnip.DeviceId s) w1 Hcl Hrest) as (p' & w' & P).
  exists p', w'. simpl poll. now rewrite (bind_Done _ _ _ _ _ S).
Qed.

(** C4.  When the polling loop has served the requests the input
    stream delivered, what it received and what it put on the control
    stream alternate: each request is followed by exactly one control
    snip, its own OK or ERROR snip, before the next request is
    received; so the control snips come one per request and in the
    order of the requests.  On a client that keeps the Modbus
    contract the loop does serve all of them, if they are well
    formed; it stops short only when the process ends, on a request
    [query] refuses or a payload the transform faults on. *)
Theorem one_control_snip_per_request input w0 :
  (forall p w,
     Transform input w0 = Done p w ->
     exists evs cs,
       trace w = trace w0 ++ evs /\
       dialogue evs = interleave input cs /\
       received evs = input /\
       controls evs = cs /\
       Forall2 answers input cs /\
       map ControlSnip.DeviceId cs = map QuerySnip.DeviceId input) /\
  (faithful (client (engine w0)) ->
   Forall well_formed input ->
   exists p w, Transform input w0 = Done p w).
Proof.
  split; [|apply poll_well_formed].
  intros p w P.
  destruct (poll_dialogue input 0 w0 p w P) as (evs & cs & Tr & D & F).
  exists evs, cs.
  rewrite received_dialogue, controls_dialogue, D.
  repeat split; try assumption.
  - clear - F. induction F; [reflexivity|]. simpl.
    unfold lefts in *. simpl. now f_equal.
  - clear - F. induction F; [reflexivity|]. simpl.
    unfold rights in *. simpl. now f_equal.
  - clear - F. induction F as [|s c l l' H F IH]; [reflexivity|]. simpl.
    rewrite IH. f_equal. destruct H as [->| ->]; reflexivity.
Qed.

Lemma one_control_snip_per_request_witness :
  let input := [voltage 7; voltage 7; holding 9] in
  exists p w evs cs,
    Transform input (boot (flaky 6)) = Done p w /\
    trace w = trace (boot (flaky 6)) ++ evs /\
    dialogue evs = interleave input cs /\
    received evs = input /\
    controls evs = cs /\
    Forall2 answers input cs /\
    map ControlSnip.DeviceId cs = [7; 7; 9].
Proof.
  intros input.
  destruct (one_control_snip_per_request input (boot (flaky 6))) as [H T].
  destruct T as (p & w & P).
  - apply flaky_faithful.
  - repeat constructor;
      first [apply voltage_well_formed | apply holding_well_formed].
  - destruct (H p w P) as (evs & cs & Tr & D & R & C & F & I).
    exists p, w, evs, cs. repeat split; assumption.
Defined.

(** C3.  Two requests [s1] and [s2] dequeued one after the other,
    [s1] served to its end and [s2] accepted by the query executor.
    Let [t1] be the time of the last query attempt of [s1] and [t2]
    the time of the first query attempt of [s2], on the clock of the
    enforced sleeps.  If the device addresses differ, the loop sleeps
    the 100 ms settle interval between dequeuing [s2] and [t2], so
    [t2 - t1 >= 100].  If they are equal there is no settle sleep:
    [s2] is queried the moment it is dequeued, and after a successful
    [s1] no time at all is enforced between [t1] and [t2] (after an
    exhausted [s1] what lies between them is the 100 ms backoff of its
    last failed attempt). *)
Theorem settle_gap pre s1 s2 rest w0 p w p1 w1 :
  Transform pre w0 = Done p w ->
  Transform (pre ++ [s1]) w0 = Done p1 w1 ->
  dispatch s2 <> None ->
  exists seg1 seg2 ts1 t1 t2 ts2,
    trace w1 = trace w ++ seg1 /\
    trace (final (Transform (pre ++ s1 :: s2 :: rest) w0)) = trace w1 ++ seg2 /\
    request_times seg1 = ts1 ++ [t1] /\
    request_times seg2 = t2 :: ts2 /\
    (QuerySnip.DeviceId s1 <> QuerySnip.DeviceId s2 ->
       t2 - clock w1 = 100 /\ 100 <= t2 - t1) /\
    (QuerySnip.DeviceId s1 = QuerySnip.DeviceId s2 ->
       t2 - clock w1 = 0 /\
       (controls seg1 = [successSnip s1] -> t2 - t1 = 0) /\
       (controls seg1 = [errorSnip s1] -> t2 - t1 = 100)).
Proof.
  intros Hpre H1 Hd.
  pose proof (Transform_next pre s1 [] w0 p w Hpre) as N1.
  rewrite H1 in N1. unfold bind in N1.
  destruct (serve p s1 w) as [p1' w1'|] eqn:S1; [|discriminate].
  simpl in N1. injection N1 as <- <-.
  destruct (serve_done _ _ _ _ _ S1)
    as (-> & _ & seg1 & c & ts1 & b & Tr1 & D1 & T1 & Hc).
  rewrite (Transform_next pre s1 (s2 :: rest) w0 p w Hpre).
  rewrite (bind_Done _ _ _ _ _ S1). simpl poll.
  destruct (dispatch s2) as [pr|] eqn:Hpr; [|contradiction].
  destruct (serve_first_request (QuerySnip.DeviceId s1) s2
              (fun p' => poll p' rest) w1 pr)
    as (seg2 & ts2 & Tr2 & T2); [intros a; apply grows_poll | exact Hpr |].
  exists seg1, seg2, ts1, (clock w1 - b),
         (clock w1 + pause (QuerySnip.DeviceId s1) s2), ts2.
  repeat split; try assumption.
  - unfold pause. destruct (Z.eqb_spec (QuerySnip.DeviceId s1)
                                       (QuerySnip.DeviceId s2)); [contradiction|lia].
  - unfold pause. destruct (Z.eqb_spec (QuerySnip.DeviceId s1)
                                       (QuerySnip.DeviceId s2)); [contradiction|].
    destruct Hc as [[_ ->]|[_ ->]]; lia.
  - unfold pause. rewrite H, Z.eqb_refl. lia.
  - intros Hok. rewrite controls_dialogue, D1 in Hok. simpl in Hok.
    injection Hok as Hc'.
    unfold pause. rewrite H, Z.eqb_refl.
    destruct Hc as [[_ ->]|[-> _]]; [lia | discriminate].
  - intros Herr. rewrite controls_dialogue, D1 in Herr. simpl in Herr.
    injection Herr as Hc'.
    unfold pause. rewrite H, Z.eqb_refl.
    destruct Hc as [[-> _]|[_ ->]]; [discriminate | lia].
Qed.

Lemma settle_gap_witness :
  let w0 := boot (flaky 0) in
  let w1 := final (Transform ([] ++ [voltage 7]) w0) in
  exists seg1 seg2 ts1 t1 t2 ts2,
    trace w1 = trace w0 ++ seg1 /\
    trace (final (Transform ([] ++ voltage 7 :: voltage 8 :: []) w0))
      = trace w1 ++ seg2 /\
    request_times seg1 = ts1 ++ [t1] /\
    request_times seg2 = t2 :: ts2 /\
    (QuerySnip.DeviceId (voltage 7) <> QuerySnip.DeviceId (voltage 8) ->
       t2 - clock w1 = 100 /\ 100 <= t2 - t1) /\
    (QuerySnip.DeviceId (voltage 7) = QuerySnip.DeviceId (voltage 8) ->
       t2 - clock w1 = 0 /\
       (controls seg1 = [successSnip (voltage 7)] -> t2 - t1 = 0) /\
       (controls seg1 = [errorSnip (voltage 7)] -> t2 - t1 = 100)).
Proof.
  intros w0 w1.
  apply (settle_gap [] (voltage 7) (voltage 8) [] w0 0 w0 7 w1).
  - reflexivity.
  - reflexivity.
  - discriminate.
Defined.

(** C10.  The first request dequeued after the polling loop starts,
    with a device address from 1 to 247: [previousDeviceId] starts at
    0, which is none of these addresses, so the receive is followed by
    the settle sleep of 100 ms before anything else happens, and the
    first query of an accepted request is issued 100 ms after the
    start. *)
Theorem first_request_settles snip rest w :
  1 <= QuerySnip.DeviceId snip <= 247 ->
  exists evs,
    trace (final (Transform (snip :: rest) w))
      = trace w ++ EvRecv snip :: EvSleep 100 :: evs /\
    (dispatch snip <> None ->
     exists ts, request_times evs = (clock w + 100) :: ts).
Proof.
  intros Hd. unfold Transform. simpl poll.
  destruct (serve_trace 0 snip (fun p' => poll p' rest) w) as [evs H];
    [intros a; apply grows_poll|].
  assert (Hne : (0 =? QuerySnip.DeviceId snip) = false)
    by (apply Z.eqb_neq; lia).
  unfold arrival in H. rewrite Hne in H.
  exists evs. split; [exact H|].
  intros Hdis. destruct (dispatch snip) as [pr|] eqn:Hpr; [|contradiction].
  destruct (serve_first_request 0 snip (fun p' => poll p' rest) w pr)
    as (evs' & ts & H' & T); [intros a; apply grows_poll | exact Hpr |].
  rewrite H in H'. apply app_inv_head in H'. subst evs'.
  unfold pause in T. rewrite Hne in T. exists ts. exact T.
Qed.

Lemma first_request_settles_witness :
  exists evs,
    trace (final (Transform (voltage 247 :: []) (boot (flaky 0))))
      = trace (boot (flaky 0)) ++ EvRecv (voltage 247) :: EvSleep 100 :: evs /\
    (dispatch (voltage 247) <> None ->
     exists ts, request_times evs = (clock (boot (flaky 0)) + 100) :: ts).
Proof.
  apply (first_request_settles (voltage 247) [] (boot (flaky 0))).
  simpl. lia.
Defined.

(** * The query executor *)

(** C7.  [query] on any snip in any world.  If the register count is
    not positive or the function code is neither 3 nor 4 the process
    exits fatally, and no request has been issued on the bus.
    Otherwise function code 4 goes to the read-input-registers
    primitive and function code 3 to the read-holding-registers
    primitive, with the snip's device as slave id and its start
    register and count; exactly one request is issued, and its reply,
    payload or error, is what [query] returns. *)
Theorem query_dispatch snip w :
  let h := addressed (Timeout (handler (engine w))) snip in
  let a := QuerySnip.OpCode snip in
  let n := QuerySnip.ReadLen snip in
  (n <= 0 \/ (QuerySnip.FuncCode snip <> ReadInputReg /\
              QuerySnip.FuncCode snip <> ReadHoldingReg) ->
   exists w', query snip w = Aborted FatalExit w' /\
              trace w' = trace w /\ issued w' = issued w) /\
  (0 < n -> QuerySnip.FuncCode snip = ReadInputReg ->
   exists w' evs,
     query snip w
       = Done (ReadInputRegisters (client (engine w)) (issued w) h a n) w' /\
     trace w' = trace w ++ evs /\
     requests evs = [(PrimReadInputRegisters, h, a, n)] /\
     issued w' = S (issued w)) /\
  (0 < n -> QuerySnip.FuncCode snip = ReadHoldingReg ->
   exists w' evs,
     query snip w
       = Done (ReadHoldingRegisters (client (engine w)) (issued w) h a n) w' /\
     trace w' = trace w ++ evs /\
     requests evs = [(PrimReadHoldingRegisters, h, a, n)] /\
     issued w' = S (issued w)).
Proof.
  intros h a n. rewrite query_closed. unfold dispatch. fold n.
  split; [|split].
  - intros [Hn|[H4 H3]].
    + apply Z.leb_le in Hn. rewrite Hn. eexists. repeat split.
    + apply Z.eqb_neq in H4, H3. rewrite H4, H3.
      destruct (n <=? 0); eexists; repeat split.
  - intros Hn H4. apply Z.leb_gt in Hn. rewrite Hn, H4. simpl.
    eexists. eexists. split; [reflexivity|]. split; [reflexivity|].
    split; [|reflexivity].
    apply (query_events_facts w snip PrimReadInputRegisters).
  - intros Hn H3. apply Z.leb_gt in Hn. rewrite Hn, H3. simpl.
    eexists. eexists. split; [reflexivity|]. split; [reflexivity|].
    split; [|reflexivity].
    apply (query_events_facts w snip PrimReadHoldingRegisters).
Qed.

Lemma query_dispatch_witness :
  (exists w', query (malformed 7) (boot (flaky 0)) = Aborted FatalExit w' /\
              trace w' = [] /\ issued w' = 0%nat) /\
  (exists w' evs,
     query (voltage 7) (boot (flaky 1)) = Done (inr "timeout"%string) w' /\
     trace w' = [] ++ evs /\
     requests evs = [(PrimReadInputRegisters,
                      {| SlaveId := 7; Timeout := 300 |}, 0, 2)] /\
     issued w' = 1%nat) /\
  (exists w' evs,
     query (holding 7) (boot (flaky 0)) = Done (inl payload_3_25) w' /\
     trace w' = [] ++ evs /\
     requests evs = [(PrimReadHoldingRegisters,
                      {| SlaveId := 7; Timeout := 300 |}, 19000, 2)] /\
     issued w' = 1%nat).
Proof.
  split; [|split].
  - apply (query_dispatch (malformed 7) (boot (flaky 0))).
    right. split; discriminate.
  - apply (query_dispatch (voltage 7) (boot (flaky 1))); reflexivity.
  - apply (query_dispatch (holding 7) (boot (flaky 0))); reflexivity.
Defined.

(** * The bus scan *)

Lemma keeps_ret {A} (a : A) : keeps_timeout (ret a).
Proof.
  intros w. split; [reflexivity|]. exists []. simpl.
  rewrite app_nil_r. split; [reflexivity | constructor].
Qed.

Lemma keeps_abort {A} why : keeps_timeout (@abort A why).
Proof.
  intros w. split; [reflexivity|]. exists []. simpl.
  rewrite app_nil_r. split; [reflexivity | constructor].
Qed.

Lemma keeps_bind {A B} (m : M A) (k : A -> M B) :
  keeps_timeout m -> (forall a, keeps_timeout (k a)) -> keeps_timeout (bind m k).
Proof.
  intros Hm Hk w. destruct (Hm w) as (T1 & e1 & Tr1 & F1). unfold bind.
  destruct (m w) as [a w1|why w1]; simpl in *.
  - destruct (Hk a w1) as (T2 & e2 & Tr2 & F2).
    split; [congruence|]. exists (e1 ++ e2).
    rewrite Tr2, Tr1, app_assoc. split; [reflexivity|].
    rewrite requests_app. apply Forall_app. split; [exact F1|].
    rewrite <- T1. exact F2.
  - split; [exact T1|]. exists e1. split; assumption.
Qed.

Lemma keeps_quiet {A} (m : M A) :
  (forall w, Timeout (handler (engine (final (m w))))
             = Timeout (handler (engine w)) /\
             exists evs, trace (final (m w)) = trace w ++ evs /\
                         requests evs = []) ->
  keeps_timeout m.
Proof.
  intros H w. destruct (H w) as (T & evs & Tr & R).
  split; [exact T|]. exists evs. split; [exact Tr|]. rewrite R. constructor.
Qed.

Lemma keeps_log l : keeps_timeout (log_Printf l).
Proof.
  apply keeps_quiet. intros w. split; [reflexivity|].
  exists [EvLog l]. split; reflexivity.
Qed.

Lemma keeps_time_Sleep ms : keeps_timeout (time_Sleep ms).
Proof.
  apply keeps_quiet. intros w. split; [reflexivity|].
  exists [EvSleep ms]. split; reflexivity.
Qed.

Lemma keeps_call f b : keeps_timeout (call f b).
Proof. unfold call. destruct (f b); [apply keeps_ret | apply keeps_abort]. Qed.

Lemma keeps_query snip : keeps_timeout (query snip).
Proof.
  intros w. rewrite query_closed.
  destruct (dispatch snip) as [p|]; cbv zeta; unfold world, final; cbn [engine trace].
  - split; [reflexivity|]. eexists. split; [reflexivity|].
    match goal with
    | |- context [query_events ?w ?s ?p ?r] =>
        destruct (query_events_facts w s p r) as (_ & _ & _ & R & _); rewrite R
    end.
    repeat constructor.
  - split; [reflexivity|]. exists []. rewrite app_nil_r.
    split; [reflexivity | constructor].
Qed.

Lemma keeps_scan_producers d ps : keeps_timeout (scan_producers d ps).
Proof.
  induction ps as [|p ps IH]; simpl; [apply keeps_ret|].
  apply keeps_bind; [apply keeps_query|]. intros [value|err]; [|exact IH].
  apply keeps_bind; [apply keeps_call|]. intros v.
  apply keeps_bind; [apply keeps_log|]. intros _. apply keeps_ret.
Qed.

Lemma keeps_scan_addresses ps n : forall d devs,
  keeps_timeout (scan_addresses ps n d devs).
Proof.
  induction n as [|n IH]; intros d devs; simpl; [apply keeps_ret|].
  apply keeps_bind; [apply keeps_time_Sleep|]. intros _.
  apply keeps_bind; [apply keeps_scan_producers|]. intros [dev|]; [apply IH|].
  apply keeps_bind; [apply keeps_log|]. intros _. apply IH.
Qed.

(** [Scan] up to the end of its address loop: the timeout is 50 ms
    from the first probe on. *)
Lemma Scan_closed ps w :
  Scan ps w =
  bind (scan_addresses ps 247 1 [])
       (fun deviceList =>
          modify (set_Timeout (Timeout (handler (engine w)))) ;;
          log_Printf (LogFoundCount (List.length deviceList)) ;;
          log_devices deviceList ;;
          log_Printf LogWarning)
       (world (set_Timeout 50 (engine w)) (clock w) (issued w)
              (trace w ++ [EvLog LogScanStart])).
Proof. reflexivity. Qed.

(** The end of [Scan], after the address loop. *)
Lemma Scan_tail old devs w :
  exists w',
    (modify (set_Timeout old) ;;
     log_Printf (LogFoundCount (List.length devs)) ;;
     log_devices devs ;;
     log_Printf LogWarning) w = Done tt w' /\
    Timeout (handler (engine w')) = old /\
    client (engine w') = client (engine w) /\
    exists evs,
      trace w' = trace w ++ evs /\ requests evs = [] /\
      reported evs = map (fun dev => (DeviceId dev, MeterType dev)) devs /\
      reported_absent evs = [].
Proof.
  assert (L : forall devs w,
             exists w', log_devices devs w = Done tt w' /\
                        engine w' = engine w /\
                        exists evs, trace w' = trace w ++ evs /\
                                    requests evs = [] /\
                                    reported evs
                                    = map (fun dev => (DeviceId dev, MeterType dev)) devs /\
                                    reported_absent evs = []).
  { clear. induction devs as [|dev devs IH]; intros w.
    - exists w. split; [reflexivity|]. split; [reflexivity|].
      exists []. rewrite app_nil_r. repeat split.
    - simpl log_devices. unfold bind, log_Printf, emit.
      match goal with |- context [log_devices devs ?w1] =>
        destruct (IH w1) as (w' & R & E & evs & Tr & Rq & Rp & Ra) end.
      exists w'. split; [exact R|]. split; [exact E|].
      exists (EvLog (LogDevice (DeviceId dev) (MeterType dev)) :: evs).
      rewrite Tr. cbn [trace]. rewrite <- app_assoc. simpl.
      rewrite Rq, Rp, Ra. repeat split. }
  unfold bind at 1 2, modify, log_Printf, emit.
  match goal with |- context [bind (log_devices devs) _ ?w1] =>
    destruct (L devs w1) as (w2 & R & E & evs & Tr & Rq & Rp & Ra) end.
  unfold bind. rewrite R.
  eexists. split; [reflexivity|]. cbn [engine trace].
  rewrite E. cbn [engine]. split; [reflexivity|]. split; [reflexivity|].
  exists (EvLog (LogFoundCount (List.length devs)) :: evs ++ [EvLog LogWarning]).
  rewrite Tr. cbn [trace]. rewrite <- !app_assoc. simpl.
  autorewrite with proj. rewrite Rq, Rp, Ra. simpl.
  repeat split.
Qed.

(** C6, as the code has it.  Every request of the scan is issued
    under the 50 ms timeout.  When [Scan] runs to its end, which is
    the only way it returns, the session timeout is again what it was
    before the scan.  When the scan is cut short, by the fatal exit of
    [query] or by a fault in a transform, nothing restores the
    timeout: it is left at 50 ms. *)
Theorem scan_timeout ps w :
  exists evs,
    trace (final (Scan ps w)) = trace w ++ evs /\
    Forall (fun rq => request_timeout rq = 50) (requests evs) /\
    match Scan ps w with
    | Done _ w' => Timeout (handler (engine w')) = Timeout (handler (engine w))
    | Aborted _ w' => Timeout (handler (engine w')) = 50
    end.
Proof.
  rewrite Scan_closed.
  set (w50 := world (set_Timeout 50 (engine w)) _ _ _).
  destruct (keeps_scan_addresses ps 247 1 [] w50) as (T & e1 & Tr1 & F1).
  destruct (scan_addresses ps 247 1 [] w50) as [devs w1|why w1] eqn:E;
    cbn [final] in *;
    [rewrite (bind_Done _ _ _ _ _ E) | rewrite (bind_Aborted _ _ _ _ _ E)].
  - destruct (Scan_tail (Timeout (handler (engine w))) devs w1)
      as (w' & R & T' & _ & e2 & Tr2 & Rq2 & _).
    rewrite R. cbn [final].
    exists (EvLog LogScanStart :: e1 ++ e2).
    rewrite Tr2, Tr1. unfold w50, world. cbn [trace].
    rewrite <- !app_assoc. split; [reflexivity|]. split; [|exact T'].
    simpl. rewrite requests_app, Rq2, app_nil_r. exact F1.
  - exists (EvLog LogScanStart :: e1). cbn [final].
    rewrite Tr1. unfold w50, world. cbn [trace].
    rewrite <- !app_assoc. split; [reflexivity|]. split; [exact F1 | exact T].
Qed.

(** C6 as the specification words it fails: a scan that ends early leaves the
    timeout at 50 ms although it was 300 ms before.  A producer whose
    probe [query] refuses ends the scan by a fatal exit; a payload
    shorter than the probe's transform reads ends it by a runtime
    fault. *)
Lemma scan_cut_short_keeps_50ms :
  (Timeout (handler (engine (boot two_devices))) = 300 /\
   exists w', Scan [broken] (boot two_devices) = Aborted FatalExit w' /\
              Timeout (handler (engine w')) = 50) /\
  (Timeout (handler (engine (boot short_reply))) = 300 /\
   exists w', Scan [sdm] (boot short_reply) = Aborted RuntimePanic w' /\
              Timeout (handler (engine w')) = 50).
Proof.
  split; (split; [reflexivity|]);
    eexists; (split; [vm_compute; reflexivity | reflexivity]).
Qed.

(** ** Where the scan sends its requests *)

Lemma issues_quiet {A} P (m : M A) :
  (forall w, exists evs, trace (final (m w)) = trace w ++ evs /\
                         requests evs = []) ->
  issues P m.
Proof.
  intros H w. destruct (H w) as (evs & Tr & R).
  exists evs. split; [exact Tr|]. rewrite R. constructor.
Qed.

Lemma issues_ret {A} P (a : A) : issues P (ret a).
Proof.
  apply issues_quiet. intros w. exists []. simpl.
  now rewrite app_nil_r.
Qed.

Lemma issues_bind {A B} P (m : M A) (k : A -> M B) :
  issues P m -> (forall a, issues P (k a)) -> issues P (bind m k).
Proof.
  intros Hm Hk w. destruct (Hm w) as (e1 & Tr1 & F1). unfold bind.
  destruct (m w) as [a w1|why w1]; simpl in *.
  - destruct (Hk a w1) as (e2 & Tr2 & F2). exists (e1 ++ e2).
    rewrite Tr2, Tr1, app_assoc. split; [reflexivity|].
    rewrite requests_app. apply Forall_app. split; assumption.
  - exists e1. split; assumption.
Qed.

Lemma issues_log P l : issues P (log_Printf l).
Proof. apply issues_quiet. intros w. exists [EvLog l]. split; reflexivity. Qed.

Lemma issues_time_Sleep P ms : issues P (time_Sleep ms).
Proof. apply issues_quiet. intros w. exists [EvSleep ms]. split; reflexivity. Qed.

Lemma issues_modify P f : issues P (modify f).
Proof.
  apply issues_quiet. intros w. exists []. simpl. now rewrite app_nil_r.
Qed.

Lemma issues_call P f b : issues P (call f b).
Proof.
  apply issues_quiet. intros w. exists []. unfold call.
  destruct (f b); simpl; now rewrite app_nil_r.
Qed.

Lemma issues_weaken {A} (P Q : _ -> Prop) (m : M A) :
  (forall rq, P rq -> Q rq) -> issues P m -> issues Q m.
Proof.
  intros H Hm w. destruct (Hm w) as (evs & Tr & F).
  exists evs. split; [exact Tr|]. eapply Forall_impl; [exact H | exact F].
Qed.

(** [query] sends its request to the device of the snip. *)
Lemma issues_query snip :
  issues (fun rq => request_slave rq = QuerySnip.DeviceId snip) (query snip).
Proof.
  intros w. rewrite query_closed.
  destruct (dispatch snip) as [p|]; cbv zeta; unfold world, final; cbn [trace].
  - eexists. split; [reflexivity|].
    match goal with
    | |- context [query_events ?w ?s ?p ?r] =>
        destruct (query_events_facts w s p r) as (_ & _ & _ & R & _); rewrite R
    end.
    repeat constructor.
  - exists []. rewrite app_nil_r. split; [reflexivity | constructor].
Qed.

Lemma issues_scan_producers d ps :
  (forall p, In p ps -> QuerySnip.DeviceId (Probe p d) = d) ->
  issues (fun rq => request_slave rq = d) (scan_producers d ps).
Proof.
  induction ps as [|p ps IH]; intros Hd; simpl; [apply issues_ret|].
  apply issues_bind.
  - eapply issues_weaken; [|apply issues_query].
    cbv beta. intros rq ->. apply Hd. now left.
  - intros [value|err]; [|apply IH; intros q Hq; apply Hd; now right].
    apply issues_bind; [apply issues_call|]. intros v.
    apply issues_bind; [apply issues_log|]. intros _. apply issues_ret.
Qed.

Lemma issues_scan_addresses ps n : forall d devs,
  addressed_probes ps ->
  issues (fun rq => d <= request_slave rq < d + Z.of_nat n)
         (scan_addresses ps n d devs).
Proof.
  induction n as [|n IH]; intros d devs Hps; simpl scan_addresses;
    [apply issues_ret|].
  assert (Hnext : forall devs',
             issues (fun rq => d <= request_slave rq < d + Z.of_nat (S n))
                    (scan_addresses ps n (d + 1) devs')).
  { intros devs'. eapply issues_weaken; [|apply (IH (d + 1) devs' Hps)].
    cbv beta. intros rq. lia. }
  apply issues_bind; [apply issues_time_Sleep|]. intros _.
  apply issues_bind.
  - eapply issues_weaken; [|apply issues_scan_producers].
    + cbv beta. intros rq ->. lia.
    + intros p Hp. apply Hps. exact Hp.
  - intros [dev|]; [apply Hnext|].
    apply issues_bind; [apply issues_log | intros _; apply Hnext].
Qed.

Lemma issues_log_devices P devs : issues P (log_devices devs).
Proof.
  induction devs as [|dev devs IH]; simpl; [apply issues_ret|].
  apply issues_bind; [apply issues_log | intros _; exact IH].
Qed.

Lemma issues_Scan ps :
  addressed_probes ps ->
  issues (fun rq => 1 <= request_slave rq <= 247) (Scan ps).
Proof.
  intros Hps. unfold Scan.
  apply issues_bind.
  { apply issues_quiet. intros w. exists []. simpl. now rewrite app_nil_r. }
  intros q. apply issues_bind; [apply issues_modify|]. intros _.
  apply issues_bind; [apply issues_log|]. intros _.
  apply issues_bind.
  { eapply issues_weaken; [|apply (issues_scan_addresses ps 247 1 [] Hps)].
    cbv beta. intros rq. change (Z.of_nat 247) with 247. lia. }
  intros devs. apply issues_bind; [apply issues_modify|]. intros _.
  apply issues_bind; [apply issues_log|]. intros _.
  apply issues_bind; [apply issues_log_devices|]. intros _.
  apply issues_log.
Qed.

Lemma addresses_In n : forall a d, In d (addresses n a) <-> a <= d < a + Z.of_nat n.
Proof.
  induction n as [|n IH]; intros a d.
  - simpl. lia.
  - cbn [addresses In]. rewrite IH. lia.
Qed.

(** On a static, faithful bus, sound producers at one address: the
    inner loop returns the first match, and probes only that
    address. *)
Lemma scan_producers_sound d ps : forall w,
  static (client (engine w)) -> faithful (client (engine w)) ->
  Forall sound_producer ps ->
  Timeout (handler (engine w)) = 50 ->
  exists w' evs,
    scan_producers d ps w
      = Done (option_map (fun t => device (d, t))
                         (first_match (client (engine w)) ps d)) w' /\
    client (engine w') = client (engine w) /\
    Timeout (handler (engine w')) = 50 /\
    trace w' = trace w ++ evs /\
    reported evs = [] /\ reported_absent evs = [] /\
    Forall (fun rq => request_slave rq = d) (requests evs).
Proof.
  induction ps as [|p ps IH]; intros w Hst Hf Hs Ht.
  - exists w, []. simpl. rewrite app_nil_r. repeat split; auto.
  - inversion Hs as [|? ? Hp Hps]; subst.
    destruct (Hp d) as (Hd & Hwf). assert (Hwf' := Hwf).
    destruct Hwf' as (Hdis & Hdec).
    simpl scan_producers. unfold bind at 1. rewrite query_closed.
    unfold first_match. cbn [find]. unfold responds at 1, attempt.
    destruct (dispatch (Probe p d)) as [pr|] eqn:Hpr; [|contradiction].
    cbv zeta. rewrite handler_counted, Ht.
    rewrite (Hst pr (issued w) 0%nat).
    set (r := reply _ pr 0 _ _ _).
    destruct (query_events_facts w (Probe p d) pr r)
      as (_ & _ & _ & Rq & Rp & Ra).
    destruct r as [value|err] eqn:Hr.
    + assert (Hlen := Hf _ _ _ _ _ _ Hr).
      destruct (QuerySnip.Transform (Probe p d) value) as [v|] eqn:Hv;
        [|exfalso; exact (Hdec value Hlen Hv)].
      unfold bind, call. rewrite Hv. unfold ret, log_Printf, emit, world.
      cbn [engine clock issued trace option_map].
      eexists. eexists. split; [reflexivity|]. cbn [engine trace].
      split; [reflexivity|]. split; [exact Ht|].
      rewrite <- app_assoc. split; [reflexivity|].
      autorewrite with proj. rewrite Rq, Rp, Ra. simpl.
      repeat split. constructor; [|constructor]. simpl. exact Hd.
    + set (w1 := world _ _ _ _).
      destruct (IH w1 Hst Hf Hps Ht)
        as (w' & evs & R & C & T & Tr & Rp' & Ra' & F).
      exists w', (query_events w (Probe p d) pr (inr err) ++ evs).
      rewrite R. split; [reflexivity|]. split; [exact C|]. split; [exact T|].
      rewrite Tr. unfold w1, world. cbn [trace]. rewrite <- app_assoc.
      split; [reflexivity|].
      autorewrite with proj. rewrite Rq, Rp, Ra, Rp', Ra'.
      repeat split. constructor; [exact Hd | exact F].
Qed.

(** The same for the loop over [n] addresses from [d] on. *)
Lemma scan_addresses_sound ps n : forall d devs w,
  static (client (engine w)) -> faithful (client (engine w)) ->
  Forall sound_producer ps ->
  Timeout (handler (engine w)) = 50 ->
  exists w' evs,
    scan_addresses ps n d devs w
      = Done (devs ++ map device (expected_report (client (engine w)) ps
                                                  (addresses n d))) w' /\
    client (engine w') = client (engine w) /\
    trace w' = trace w ++ evs /\
    reported evs = [] /\
    reported_absent evs
      = expected_absent (client (engine w)) ps (addresses n d) /\
    Forall (fun rq => d <= request_slave rq < d + Z.of_nat n) (requests evs).
Proof.
  induction n as [|n IH]; intros d devs w Hst Hf Hs Ht.
  - exists w, []. simpl. rewrite !app_nil_r. repeat split. constructor.
  - simpl scan_addresses. unfold bind at 1, time_Sleep.
    set (w0 := Build_World _ _ _ _).
    destruct (scan_producers_sound d ps w0 Hst Hf Hs Ht)
      as (w1 & e1 & R1 & C1 & T1 & Tr1 & Rp1 & Ra1 & F1).
    rewrite (bind_Done _ _ _ _ _ R1).
    change (client (engine w0)) with (client (engine w)) in *.
    cbn [addresses expected_report expected_absent flat_map filter].
    assert (F1' : Forall (fun rq => d <= request_slave rq < d + Z.of_nat (S n))
                         (requests e1)).
    { eapply Forall_impl; [|exact F1]. simpl. intros rq ->. lia. }
    destruct (first_match (client (engine w)) ps d) as [t|]; cbn [option_map].
    + rewrite <- C1 in Hst, Hf.
      destruct (IH (d + 1) (devs ++ [device (d, t)]) w1 Hst Hf Hs T1)
        as (w2 & e2 & R2 & C2 & Tr2 & Rp2 & Ra2 & F2).
      rewrite C1 in *.
      exists w2, (EvSleep 40 :: e1 ++ e2). rewrite R2.
      split; [cbn [map app]; now rewrite <- app_assoc|].
      split; [congruence|]. rewrite Tr2, Tr1. unfold w0. cbn [trace].
      rewrite <- !app_assoc. split; [reflexivity|].
      simpl. autorewrite with proj. rewrite Rp1, Ra1, Rp2, Ra2.
      repeat split. apply Forall_app. split; [exact F1'|].
      eapply Forall_impl; [|exact F2]. simpl. intros rq. lia.
    + unfold bind at 1, log_Printf, emit.
      set (w1' := Build_World _ _ _ _).
      assert (Hst' : static (client (engine w1'))) by (simpl; now rewrite C1).
      assert (Hf' : faithful (client (engine w1'))) by (simpl; now rewrite C1).
      destruct (IH (d + 1) devs w1' Hst' Hf' Hs T1)
        as (w2 & e2 & R2 & C2 & Tr2 & Rp2 & Ra2 & F2).
      change (client (engine w1')) with (client (engine w1)) in *.
      rewrite C1 in *.
      exists w2, (EvSleep 40 :: e1 ++ EvLog (LogNA d) :: e2). rewrite R2.
      split; [reflexivity|].
      split; [congruence|]. rewrite Tr2. unfold w1'. cbn [trace].
      rewrite Tr1. unfold w0. cbn [trace].
      rewrite <- !app_assoc. split; [reflexivity|].
      simpl. autorewrite with proj. simpl. rewrite Rp1, Ra1, Rp2, Ra2.
      repeat split. apply Forall_app. split; [exact F1'|].
      eapply Forall_impl; [|exact F2]. simpl. intros rq. lia.
Qed.

Lemma expected_report_In cl ps ds d t :
  In (d, t) (expected_report cl ps ds) <-> In d ds /\ first_match cl ps d = Some t.
Proof.
  unfold expected_report. rewrite in_flat_map. split.
  - intros (a & Ha & H). destruct (first_match cl ps a) as [t'|] eqn:E;
      [|contradiction].
    destruct H as [[= <- <-]|[]]. split; assumption.
  - intros (Hd & E). exists d. rewrite E. split; [assumption | now left].
Qed.

Lemma expected_absent_In cl ps ds d :
  In d (expected_absent cl ps ds) <-> In d ds /\ first_match cl ps d = None.
Proof.
  unfold expected_absent. rewrite filter_In.
  destruct (first_match cl ps d); intuition congruence.
Qed.

Lemma map_device_back l :
  map (fun dev => (DeviceId dev, MeterType dev)) (map device l) = l.
Proof.
  induction l as [|[d t] l IH]; [reflexivity|]. simpl. now rewrite IH.
Qed.

(** C5.  With producers whose probes are addressed to the device
    asked for, every request of a scan goes to an address from 1 to
    247, on any bus and however the scan ends.  On a bus whose replies
    depend only on the request and keep the Modbus contract, with
    producers whose probes are moreover well formed, the scan runs to
    its end; its final report lists, in ascending order, exactly the
    addresses from 1 to 247 at which some producer's probe is
    answered, each with the meter type of the first such producer in
    the order of the list; and the "n/a" lines are exactly the
    addresses from 1 to 247 at which no producer's probe is
    answered. *)
Theorem scan_report ps w :
  (addressed_probes ps ->
   exists evs,
     trace (final (Scan ps w)) = trace w ++ evs /\
     Forall (fun rq => 1 <= request_slave rq <= 247) (requests evs)) /\
  (static (client (engine w)) ->
   faithful (client (engine w)) ->
   Forall sound_producer ps ->
   exists w' evs,
     Scan ps w = Done tt w' /\
     trace w' = trace w ++ evs /\
     Forall (fun rq => 1 <= request_slave rq <= 247) (requests evs) /\
     reported evs = expected_report (client (engine w)) ps (addresses 247 1) /\
     reported_absent evs
       = expected_absent (client (engine w)) ps (addresses 247 1) /\
     (forall d t, In (d, t) (reported evs) <->
                  1 <= d <= 247 /\
                  first_match (client (engine w)) ps d = Some t) /\
     (forall d, In d (reported_absent evs) <->
                1 <= d <= 247 /\
                first_match (client (engine w)) ps d = None)).
Proof.
  split; [intros Hps; apply (issues_Scan ps Hps w)|].
  intros Hst Hf Hs. rewrite Scan_closed.
  set (w50 := world (set_Timeout 50 (engine w)) _ _ _).
  set (ds := addresses 247 1).
  destruct (scan_addresses_sound ps 247 1 [] w50 Hst Hf Hs eq_refl)
    as (w1 & e1 & R1 & C1 & Tr1 & Rp1 & Ra1 & F1).
  change (client (engine w50)) with (client (engine w)) in *.
  fold ds in R1, Ra1.
  rewrite (bind_Done _ _ _ _ _ R1). rewrite app_nil_l.
  destruct (Scan_tail (Timeout (handler (engine w)))
                      (map device (expected_report (client (engine w)) ps ds))
                      w1)
    as (w' & R & _ & _ & e2 & Tr2 & Rq2 & Rp2 & Ra2).
  rewrite map_device_back in Rp2.
  exists w', ([EvLog LogScanStart] ++ e1 ++ e2).
  assert (Rp : reported ([EvLog LogScanStart] ++ e1 ++ e2)
               = expected_report (client (engine w)) ps ds).
  { rewrite !reported_app, Rp1, Rp2. reflexivity. }
  assert (Ra : reported_absent ([EvLog LogScanStart] ++ e1 ++ e2)
               = expected_absent (client (engine w)) ps ds).
  { rewrite !reported_absent_app, Ra1, Ra2, app_nil_r. reflexivity. }
  split; [exact R|]. split; [|split; [|split; [exact Rp|split; [exact Ra|split]]]].
  - rewrite Tr2, Tr1. unfold w50, world. cbn [trace].
    now rewrite <- !app_assoc.
  - rewrite !requests_app, Rq2, app_nil_r. rewrite app_nil_l.
    eapply Forall_impl; [|exact F1]. cbv beta. intros rq.
    change (Z.of_nat 247) with 247. lia.
  - intros d t. rewrite Rp, expected_report_In. unfold ds.
    rewrite addresses_In. change (Z.of_nat 247) with 247. intuition lia.
  - intros d. rewrite Ra, expected_absent_In. unfold ds.
    rewrite addresses_In. change (Z.of_nat 247) with 247. intuition lia.
Qed.

(** The simulated bus of the design document: only the devices 5 and
    42 answer, to the probe of the first producer. *)
Lemma scan_report_witness :
  exists w' evs,
    Scan [sdm; janitza] (boot two_devices) = Done tt w' /\
    trace w' = [] ++ evs /\
    Forall (fun rq => 1 <= request_slave rq <= 247) (requests evs) /\
    reported evs = [(5, "SDM"%string); (42, "SDM"%string)] /\
    (forall d, In d (reported_absent evs) <->
               1 <= d <= 247 /\ d <> 5 /\ d <> 42).
Proof.
  destruct (scan_report [sdm; janitza] (boot two_devices)) as [_ H].
  destruct H as (w' & evs & R & Tr & F & Rp & Ra & _ & Hna).
  - apply two_devices_static.
  - apply two_devices_faithful.
  - constructor; [apply sdm_sound|].
    constructor; [apply janitza_sound | constructor].
  - exists w', evs. split; [exact R|]. split; [exact Tr|]. split; [exact F|].
    split; [rewrite Rp; vm_compute; reflexivity|].
    intros d. rewrite Hna.
    change (client (engine (boot two_devices))) with two_devices.
    assert (E : first_match two_devices [sdm; janitza] d = None
                <-> d <> 5 /\ d <> 42).
    { unfold first_match, responds, attempt. simpl.
      destruct (Z.eqb_spec d 5); simpl; [intuition congruence|].
      destruct (Z.eqb_spec d 42); simpl; intuition congruence. }
    rewrite E. reflexivity.
Defined.

(** * Further properties of the engine *)

(** ** The books of the polling loop *)

Lemma failed_app a b : failed (a ++ b) = failed a ++ failed b.
Proof. apply flat_map_app. Qed.
Lemma answered_app a b : answered (a ++ b) = answered a ++ answered b.
Proof. apply flat_map_app. Qed.
Lemma sleeps_app a b : sleeps (a ++ b) = sleeps a ++ sleeps b.
Proof. apply flat_map_app. Qed.
Lemma sent_app a b : sent (a ++ b) = sent a ++ sent b.
Proof. apply flat_map_app. Qed.
Lemma logged_app a b : logged (a ++ b) = logged a ++ logged b.
Proof. apply flat_map_app. Qed.

Lemma total_app a b : total (a ++ b) = total a + total b.
Proof. induction a as [|x a IH]; simpl; [reflexivity | rewrite IH; lia]. Qed.

Lemma slept_app a b : slept (a ++ b) = slept a + slept b.
Proof. unfold slept. now rewrite sleeps_app, total_app. Qed.

#[local] Hint Rewrite failed_app answered_app sent_app slept_app sleeps_app
  total_app logged_app length_app : proj.

Lemma ledger_refl w : ledger w w [].
Proof.
  unfold ledger. rewrite app_nil_r.
  repeat split; cbn; first [reflexivity | lia].
Qed.

Lemma ledger_trans w1 w2 w3 e1 e2 :
  ledger w1 w2 e1 -> ledger w2 w3 e2 -> ledger w1 w3 (e1 ++ e2).
Proof.
  unfold ledger. intros (A1 & A2 & A3 & A4 & A5 & A6 & A7 & A8 & A9)
                        (B1 & B2 & B3 & B4 & B5 & B6 & B7 & B8 & B9).
  autorewrite with proj.
  repeat split; try congruence; try lia.
  rewrite B1, A1. now rewrite app_assoc.
Qed.

(** The events of one accepted query, read for the books. *)
Lemma query_events_books w snip p r :
  sent (query_events w snip p r) = [] /\
  received (query_events w snip p r) = [] /\
  sleeps (query_events w snip p r) = [] /\
  failed (query_events w snip p r)
    = match r with inr err => [err] | inl _ => [] end /\
  answered (query_events w snip p r)
    = match r with inl b => [b] | inr _ => [] end.
Proof.
  unfold query_events. destruct r as [b|err]; simpl.
  - repeat split.
  - destruct (verbose (engine w)); repeat split.
Qed.

(** One failed attempt, on the books. *)
Lemma fail_step n rc snip w err :
  attempt (client (engine w)) (Timeout (handler (engine w))) snip (issued w)
    = Some (inr err) ->
  exists w' evs,
    retry_loop (S n) rc snip w = retry_loop n (rc + 1) snip w' /\
    ledger w w' evs /\
    sent evs = [] /\ received evs = [] /\
    failed evs = [err] /\ answered evs = [] /\ slept evs = 100.
Proof.
  intros H. destruct (attempt_inv _ _ _ _ _ H) as (p & Hp & Hr).
  exists (world (IncreaseModbusReconnectCounter (counted snip (engine w)))
                (clock w + 100) (S (issued w))
                (trace w ++ query_events w snip p (inr err) ++
                   [EvLog (LogRetry (QuerySnip.DeviceId snip) (rc + 1)
                                    MaxRetryCount); EvSleep 100])).
  exists (query_events w snip p (inr err) ++
            [EvLog (LogRetry (QuerySnip.DeviceId snip) (rc + 1) MaxRetryCount);
             EvSleep 100]).
  destruct (query_events_facts w snip p (inr err)) as (_ & _ & _ & Rq & _).
  destruct (query_events_books w snip p (inr err)) as (S & R & Sl & F & A).
  split; [|split].
  - simpl retry_loop. unfold bind at 1. rewrite query_attempt, Hp, H.
    unfold bind, modify, log_Printf, emit, time_Sleep, world; simpl.
    now rewrite <- !app_assoc.
  - unfold ledger, world, slept. autorewrite with proj.
    rewrite Rq, F, A, Sl. cbn. rewrite Nat.add_1_r. repeat split.
  - unfold slept. autorewrite with proj. rewrite S, R, F, A, Sl.
    repeat split.
Qed.

(** A successful attempt, on the books. *)
Lemma hit_step n rc snip w reading v :
  attempt (client (engine w)) (Timeout (handler (engine w))) snip (issued w)
    = Some (inl reading) ->
  QuerySnip.Transform snip reading = Some v ->
  exists w' evs,
    retry_loop (S n) rc snip w = Done true w' /\
    ledger w w' evs /\
    sent evs = delivery snip (Some (v, clock w)) /\ received evs = [] /\
    failed evs = [] /\ answered evs = [reading] /\ slept evs = 0.
Proof.
  intros H Hv. destruct (attempt_inv _ _ _ _ _ H) as (p & Hp & Hr).
  exists (world (counted snip (engine w)) (clock w) (S (issued w))
                (trace w ++ query_events w snip p (inl reading) ++
                   [EvOutput (QuerySnip.with_result snip v (clock w));
                    EvControl (successSnip snip)])).
  exists (query_events w snip p (inl reading) ++
            [EvOutput (QuerySnip.with_result snip v (clock w));
             EvControl (successSnip snip)]).
  destruct (query_events_facts w snip p (inl reading)) as (_ & _ & _ & Rq & _).
  destruct (query_events_books w snip p (inl reading)) as (S & R & Sl & F & A).
  split; [|split].
  - simpl retry_loop. unfold bind at 1. rewrite query_attempt, Hp, H.
    unfold bind, call. rewrite Hv.
    unfold ret, time_Now, emit, world; simpl.
    now rewrite <- !app_assoc.
  - unfold ledger, world, slept. autorewrite with proj.
    rewrite Rq, F, A, Sl. cbn. rewrite Nat.add_1_r, !Z.add_0_r. repeat split.
  - unfold slept. autorewrite with proj. rewrite S, R, F, A, Sl.
    repeat split.
Qed.

Lemma outputs_sent tr : outputs tr = lefts (sent tr).
Proof.
  induction tr as [|e tr IH]; [reflexivity|].
  destruct e; simpl; try exact IH. now rewrite IH.
Qed.

Lemma controls_sent tr : controls tr = rights (sent tr).
Proof.
  induction tr as [|e tr IH]; [reflexivity|].
  destruct e; simpl; try exact IH. now rewrite IH.
Qed.

(** [k] failed attempts in a row, on the books. *)
Lemma fail_steps k : forall n rc snip w,
  fails (client (engine w)) (Timeout (handler (engine w))) snip (issued w) k
    = true ->
  exists w' evs,
    retry_loop (k + n) rc snip w = retry_loop n (rc + Z.of_nat k) snip w' /\
    ledger w w' evs /\
    sent evs = [] /\ received evs = [] /\
    List.length (failed evs) = k /\ answered evs = [] /\
    slept evs = 100 * Z.of_nat k.
Proof.
  induction k as [|k IH]; intros n rc snip w H.
  - exists w, []. replace (rc + Z.of_nat 0) with rc by lia.
    split; [reflexivity|]. split; [apply ledger_refl|]. repeat split.
  - simpl in H.
    destruct (attempt _ _ snip (issued w)) as [[b|err]|] eqn:Ha;
      try discriminate.
    destruct (fail_step (k + n) rc snip w err Ha)
      as (w1 & e1 & R1 & L1 & S1 & Rc1 & F1 & A1 & Sl1).
    assert (L1' := L1).
    destruct L1' as (_ & C1 & _ & TO1 & _ & _ & I1 & _).
    rewrite <- C1, <- TO1 in H.
    replace (S (issued w)) with (issued w1) in H.
    2:{ rewrite I1.
        destruct L1 as (_ & _ & _ & _ & _ & _ & _ & _ & N1).
        rewrite N1, F1, A1. simpl. lia. }
    destruct (IH n (rc + 1) snip w1 H)
      as (w2 & e2 & R2 & L2 & S2 & Rc2 & F2 & A2 & Sl2).
    exists w2, (e1 ++ e2). split; [|split].
    + change (S k + n)%nat with (S (k + n)). rewrite R1, R2.
      f_equal. lia.
    + apply (ledger_trans _ _ _ _ _ L1 L2).
    + autorewrite with proj. rewrite S1, S2, Rc1, Rc2, F1, F2, A1, A2, Sl1, Sl2.
      repeat split; cbn [app List.length]; lia.
Qed.

Lemma ledger_arrived p snip w :
  ledger w (arrived p snip w) (arrival p snip) /\
  received (arrival p snip) = [snip] /\ sent (arrival p snip) = [] /\
  slept (arrival p snip) = pause p snip /\
  failed (arrival p snip) = [] /\ answered (arrival p snip) = [].
Proof.
  unfold ledger, arrived, arrival, pause, world.
  destruct (p =? QuerySnip.DeviceId snip); cbn;
    rewrite ?Nat.add_0_r, ?Z.add_0_r; repeat split.
Qed.

(** A pass of the loop body that returns, on the books: [r] is how
    the request ended. *)
Lemma serve_books p snip w p' w' :
  serve p snip w = Done p' w' ->
  p' = QuerySnip.DeviceId snip /\
  exists evs (r : Result),
    ledger w w' evs /\
    received evs = [snip] /\
    sent evs = delivery snip r /\
    slept evs = pause p snip + 100 * Z.of_nat (List.length (failed evs)) /\
    List.length (outputs evs) = List.length (answered evs) /\
    match r with
    | Some (v, ts) =>
        ts = clock w' /\
        (List.length (failed evs) < Z.to_nat MaxRetryCount)%nat /\
        exists reading, answered evs = [reading] /\
                        QuerySnip.Transform snip reading = Some v
    | None =>
        List.length (failed evs) = Z.to_nat MaxRetryCount /\ answered evs = []
    end.
Proof.
  intros H. rewrite serve_arrived in H.
  destruct (ledger_arrived p snip w) as (L0 & R0 & S0 & Sl0 & F0 & A0).
  destruct (serve_cases p snip w)
    as [Hf|[(k & reading & v & Hk & Hf & Ha & Hv)|(k & why & w1 & _ & Hab)]].
  - destruct (fail_steps _ 0 0 snip (arrived p snip w) Hf)
      as (w1 & e1 & R1 & L1 & S1 & Rc1 & F1 & A1 & Sl1).
    rewrite Nat.add_0_r in R1. unfold bind at 1 in H. rewrite R1 in H.
    cbn in H. injection H as <- <-. split; [reflexivity|].
    exists (arrival p snip ++ e1 ++ [EvControl (errorSnip snip)]), None.
    split.
    + apply (ledger_trans _ _ _ _ _ L0). apply (ledger_trans _ _ _ _ _ L1).
      unfold ledger. cbn. rewrite Nat.add_0_r, !Z.add_0_r. repeat split.
    + rewrite outputs_sent. autorewrite with proj.
      rewrite R0, S0, Sl0, F0, A0, S1, Rc1, F1, A1, Sl1.
      unfold slept.
      cbn [sent sleeps total flat_map app List.length fold_right delivery
           lefts].
      repeat split; lia.
  - destruct (fail_steps k (Z.to_nat MaxRetryCount - k) 0 snip
                         (arrived p snip w) Hf)
      as (w1 & e1 & R1 & L1 & S1 & Rc1 & F1 & A1 & Sl1).
    replace (k + (Z.to_nat MaxRetryCount - k))%nat
      with (Z.to_nat MaxRetryCount) in R1 by lia.
    destruct (Z.to_nat MaxRetryCount - k)%nat as [|n] eqn:En; [lia|].
    assert (L1' := L1).
    destruct L1' as (_ & C1 & _ & TO1 & _ & _ & I1 & CL1 & N1).
    assert (Ha1 : attempt (client (engine w1)) (Timeout (handler (engine w1)))
                          snip (issued w1) = Some (inl reading)).
    { rewrite C1, TO1, I1, N1, F1, A1. simpl.
      rewrite Nat.add_0_r. exact Ha. }
    destruct (hit_step n (0 + Z.of_nat k) snip w1 reading v Ha1 Hv)
      as (w2 & e2 & R2 & L2 & S2 & Rc2 & F2 & A2 & Sl2).
    unfold bind at 1 in H. rewrite R1, R2 in H.
    cbn in H. injection H as <- <-. split; [reflexivity|].
    exists (arrival p snip ++ e1 ++ e2), (Some (v, clock w1)).
    split.
    + apply (ledger_trans _ _ _ _ _ L0). apply (ledger_trans _ _ _ _ _ L1 L2).
    + rewrite outputs_sent. autorewrite with proj.
      rewrite R0, S0, Sl0, F0, A0, S1, Rc1, F1, A1, Sl1, S2, Rc2, F2, A2, Sl2.
      unfold slept.
      cbn [sent sleeps total flat_map app List.length fold_right delivery
           lefts].
      repeat split; try lia.
      * destruct L2 as (_ & _ & _ & _ & _ & _ & _ & CL2 & _).
        rewrite CL2, Sl2. lia.
      * exists reading. split; [reflexivity | exact Hv].
  - rewrite <- serve_arrived in H. rewrite Hab in H. discriminate.
Qed.

Lemma last_carry (a : Z) l : forall d, last (a :: l) d = last l a.
Proof.
  revert a. induction l as [|b l IH]; intros a d; [reflexivity|].
  change (last (a :: b :: l) d) with (last (b :: l) d).
  now rewrite !IH.
Qed.

Lemma pause_range p snip : 0 <= pause p snip <= 100.
Proof. unfold pause. destruct (p =? _); lia. Qed.

(** A run of the loop over [input] that returns, on the books. *)
Lemma poll_books input : forall p w p' w',
  poll p input w = Done p' w' ->
  p' = last (map QuerySnip.DeviceId input) p /\
  exists evs rs,
    ledger w w' evs /\
    received evs = input /\
    sent evs = deliveries input rs /\
    List.length rs = List.length input /\
    Forall2 (result_ok (clock w) (clock w')) input rs /\
    slept evs = 100 * Z.of_nat (switches p (map QuerySnip.DeviceId input)
                                + List.length (failed evs)) /\
    (List.length input <= List.length (requests evs)
     <= Z.to_nat MaxRetryCount * List.length input)%nat /\
    (List.length (answered evs) <= List.length input)%nat /\
    List.length (outputs evs) = List.length (answered evs).
Proof.
  induction input as [|s rest IH]; intros p w p' w' H.
  - injection H as <- <-. split; [reflexivity|]. exists [], [].
    split; [apply ledger_refl|]. cbn. repeat split; try lia. constructor.
  - simpl poll in H. unfold bind in H.
    destruct (serve p s w) as [p1 w1|] eqn:S; [|discriminate].
    destruct (serve_books _ _ _ _ _ S)
      as (-> & e1 & r & L1 & R1 & S1 & Sl1 & O1 & Hr).
    destruct (IH _ _ _ _ H)
      as (-> & e2 & rs & L2 & R2 & S2 & Len & F2 & Sl2 & N2 & A2 & O2).
    split; [cbn [map]; now rewrite last_carry|].
    exists (e1 ++ e2), (r :: rs).
    assert (C1 : clock w <= clock w1).
    { destruct L1 as (_ & _ & _ & _ & _ & _ & _ & CL & _). rewrite CL, Sl1.
      pose proof (pause_range p s). lia. }
    assert (C2 : clock w1 <= clock w').
    { destruct L2 as (_ & _ & _ & _ & _ & _ & _ & CL & _). rewrite CL, Sl2. lia. }
    assert (N1 : (1 <= List.length (requests e1) <= Z.to_nat MaxRetryCount)%nat
                 /\ (List.length (answered e1) <= 1)%nat).
    { destruct L1 as (_ & _ & _ & _ & _ & _ & _ & _ & N). rewrite N.
      change (Z.to_nat MaxRetryCount) with 5%nat in *.
      destruct r as [[v ts]|].
      - destruct Hr as (_ & Hlt & reading & -> & _). simpl. lia.
      - destruct Hr as (-> & ->). simpl. lia. }
    split; [apply (ledger_trans _ _ _ _ _ L1 L2)|].
    autorewrite with proj. rewrite R1, R2, S1, S2, Sl1, Sl2, O1, O2.
    cbn [app List.length deliveries map switches].
    change (Z.to_nat MaxRetryCount) with 5%nat in *.
    repeat split; try lia.
    + constructor.
      * destruct r as [[v ts]|]; [|exact I].
        destruct Hr as (-> & _ & reading & _ & Hv).
        split; [lia | eauto].
      * eapply Forall2_impl; [|exact F2].
        intros a [[v ts]|]; cbn; [|trivial]. intros (Hts & Hread).
        split; [lia | exact Hread].
    + unfold pause. destruct (p =? QuerySnip.DeviceId s); lia.
Qed.

Lemma three_well_formed :
  Forall well_formed [voltage 7; voltage 7; holding 9].
Proof.
  repeat constructor;
    first [apply voltage_well_formed | apply holding_well_formed].
Qed.

(** X1.  The two outbound streams of a run of the polling loop that
    has served [input]: request by request and in the order of the
    input, either the request itself with only its value and its
    timestamp filled in, followed by its OK snip, or its ERROR snip
    alone.  A forwarded value is what the request's transform decodes
    from a payload, and its timestamp lies within the run. *)
Theorem polling_streams input w0 p w :
  Transform input w0 = Done p w ->
  exists evs rs,
    trace w = trace w0 ++ evs /\
    List.length rs = List.length input /\
    sent evs = deliveries input rs /\
    Forall2 (result_ok (clock w0) (clock w)) input rs.
Proof.
  intros H. destruct (poll_books input 0 w0 p w H)
    as (_ & evs & rs & L & _ & S & Len & F & _).
  exists evs, rs. destruct L as (Tr & _). repeat split; assumption.
Qed.

Lemma polling_streams_witness :
  let input := [voltage 7; voltage 7; holding 9] in
  let w0 := boot (flaky 6) in
  exists p w evs rs,
    Transform input w0 = Done p w /\
    trace w = trace w0 ++ evs /\
    List.length rs = 3%nat /\
    sent evs = deliveries input rs /\
    Forall2 (result_ok (clock w0) (clock w)) input rs.
Proof.
  intros input w0.
  destruct (poll_well_formed input 0 w0 (flaky_faithful 6) three_well_formed)
    as (p & w & H).
  destruct (polling_streams input w0 p w H) as (evs & rs & Hevs).
  exists p, w, evs, rs. split; [exact H | exact Hevs].
Defined.



(** X3.  The time a run of the polling loop that has served [input]
    has spent asleep: 100 ms for every change of the device id along
    the input, coming from the id 0, and 100 ms for every failed
    request, and nothing else. *)
Theorem polling_sleep input w0 p w :
  Transform input w0 = Done p w ->
  exists evs,
    trace w = trace w0 ++ evs /\
    clock w - clock w0 = slept evs /\
    slept evs
      = 100 * Z.of_nat (switches 0 (map QuerySnip.DeviceId input)
                        + List.length (failed evs)).
Proof.
  intros H. destruct (poll_books input 0 w0 p w H)
    as (_ & evs & rs & L & _ & _ & _ & _ & Sl & _).
  exists evs. destruct L as (Tr & _ & _ & _ & _ & _ & _ & CL & _).
  repeat split; try assumption. lia.
Qed.

Lemma polling_sleep_witness :
  let input := [voltage 7; voltage 7; holding 9] in
  let w0 := boot (flaky 6) in
  exists p w evs,
    Transform input w0 = Done p w /\
    trace w = trace w0 ++ evs /\
    clock w - clock w0 = slept evs /\
    slept evs
      = 100 * Z.of_nat (switches 0 [7; 7; 9] + List.length (failed evs)).
Proof.
  intros input w0.
  destruct (poll_well_formed input 0 w0 (flaky_faithful 6) three_well_formed)
    as (p & w & H).
  destruct (polling_sleep input w0 p w H) as (evs & Hevs).
  exists p, w, evs. split; [exact H | exact Hevs].
Defined.



(** ** What ends the polling loop *)

(** A request [query] refuses ends the retry loop at once. *)
Lemma retry_loop_refused n rc snip w :
  dispatch snip = None ->
  retry_loop (S n) rc snip w
  = Aborted FatalExit
            (world (counted snip (engine w)) (clock w) (issued w) (trace w)).
Proof.
  intros Hd. simpl retry_loop. unfold bind at 1.
  rewrite query_closed, Hd. reflexivity.
Qed.

(** X5.  A request the query executor refuses (register count not
    positive, or a function code other than 3 and 4) ends the polling
    loop the moment it is served: it is received, the settle pause is
    slept if the device changed, the request counter is incremented,
    and the process exits.  Nothing is sent on the bus, nothing is put
    on the output or the control stream, and the requests queued
    behind it are never received. *)
Theorem polling_refused pre bad rest w0 p w :
  Transform pre w0 = Done p w ->
  dispatch bad = None ->
  exists w' evs,
    Transform (pre ++ bad :: rest) w0 = Aborted FatalExit w' /\
    trace w' = trace w ++ evs /\
    received evs = [bad] /\
    requests evs = [] /\
    sent evs = [] /\
    slept evs = pause p bad /\
    ModbusRequests (status (engine w'))
      = ModbusRequests (status (engine w)) + 1 /\
    ModbusReconnects (status (engine w'))
      = ModbusReconnects (status (engine w)).
Proof.
  intros H Hd. rewrite (Transform_next _ _ _ _ _ _ H).
  unfold bind at 1. rewrite serve_arrived.
  change (Z.to_nat MaxRetryCount) with 5%nat.
  unfold bind at 1. rewrite (retry_loop_refused 4 0 bad _ Hd).
  eexists. exists (arrival p bad). split; [reflexivity|].
  destruct (ledger_arrived p bad w) as (_ & R0 & S0 & Sl0 & _).
  unfold world, arrived, world. cbn [trace engine].
  split; [reflexivity|]. split; [exact R0|].
  split; [unfold arrival; destruct (p =? _); reflexivity|].
  split; [exact S0|]. split; [exact Sl0|]. split; reflexivity.
Qed.

Lemma polling_refused_witness :
  exists w' evs,
    Transform ([] ++ malformed 7 :: [voltage 7]) (boot (flaky 0))
      = Aborted FatalExit w' /\
    trace w' = [] ++ evs /\
    received evs = [malformed 7] /\
    requests evs = [] /\
    sent evs = [] /\
    slept evs = pause 0 (malformed 7) /\
    ModbusRequests (status (engine w')) = 0 + 1 /\
    ModbusReconnects (status (engine w')) = 0.
Proof.
  apply (polling_refused [] (malformed 7) [voltage 7] (boot (flaky 0)) 0
                         (boot (flaky 0))).
  - reflexivity.
  - reflexivity.
Defined.

(** X6.  A payload the request's transform faults on (too short for
    its decode) ends the polling loop too, on whichever attempt it
    arrives: the failed attempts before it are counted and slept as
    usual, and then the process is gone with neither an output nor a
    control snip for the request. *)
Theorem polling_faulted pre snip rest w0 p w (k : nat) reading :
  Transform pre w0 = Done p w ->
  (k < Z.to_nat MaxRetryCount)%nat ->
  fails (client (engine w)) (Timeout (handler (engine w))) snip (issued w) k
    = true ->
  attempt (client (engine w)) (Timeout (handler (engine w))) snip
          (issued w + k) = Some (inl reading) ->
  QuerySnip.Transform snip reading = None ->
  exists w' evs,
    Transform (pre ++ snip :: rest) w0 = Aborted RuntimePanic w' /\
    trace w' = trace w ++ evs /\
    received evs = [snip] /\
    sent evs = [] /\
    List.length (failed evs) = k /\
    answered evs = [reading] /\
    ModbusReconnects (status (engine w'))
      = ModbusReconnects (status (engine w)) + Z.of_nat k.
Proof.
  intros H Hk Hf Ha Hv. rewrite (Transform_next _ _ _ _ _ _ H).
  unfold bind at 1. rewrite serve_arrived.
  destruct (ledger_arrived p snip w) as (L0 & R0 & S0 & Sl0 & F0 & A0).
  destruct (fail_steps k (Z.to_nat MaxRetryCount - k) 0 snip
                       (arrived p snip w) Hf)
    as (w1 & e1 & R1 & L1 & S1 & Rc1 & F1 & A1 & Sl1).
  replace (k + (Z.to_nat MaxRetryCount - k))%nat
    with (Z.to_nat MaxRetryCount) in R1 by lia.
  destruct (Z.to_nat MaxRetryCount - k)%nat as [|n] eqn:En; [lia|].
  pose proof (ledger_trans _ _ _ _ _ L0 L1) as L.
  destruct L1 as (_ & C1 & _ & TO1 & _ & _ & I1 & _ & N1).
  assert (Ha1 : attempt (client (engine w1)) (Timeout (handler (engine w1)))
                        snip (issued w1) = Some (inl reading)).
  { rewrite C1, TO1, I1, N1, F1, A1. simpl. rewrite Nat.add_0_r. exact Ha. }
  destruct (attempt_inv _ _ _ _ _ Ha1) as (pr & Hp & Hr).
  unfold bind at 1. rewrite R1. simpl retry_loop. unfold bind at 1.
  rewrite query_attempt, Hp, Ha1. unfold bind at 1, call. rewrite Hv.
  unfold abort.
  eexists. exists (arrival p snip ++ e1 ++ query_events w1 snip pr (inl reading)).
  split; [reflexivity|].
  destruct (query_events_books w1 snip pr (inl reading))
    as (S2 & R2 & Sl2 & F2 & A2).
  destruct L as (Tr & _ & _ & _ & _ & Rc & _).
  unfold world. cbn [trace engine]. rewrite Tr.
  autorewrite with proj in *.
  rewrite ?R0, ?Rc1, ?R2, ?S0, ?S1, ?S2, ?F0, ?F1, ?F2, ?A0, ?A1, ?A2.
  rewrite F0, F1 in Rc. cbn [List.length Nat.add] in Rc.
  repeat split; try reflexivity; try lia.
  - now rewrite <- !app_assoc.
  - exact Rc.
Qed.

Lemma polling_faulted_witness :
  exists w' evs,
    Transform ([] ++ voltage 7 :: [voltage 8]) (boot short_reply)
      = Aborted RuntimePanic w' /\
    trace w' = [] ++ evs /\
    received evs = [voltage 7] /\
    sent evs = [] /\
    List.length (failed evs) = 0%nat /\
    answered evs = [bytes_of_uint16 1234] /\
    ModbusReconnects (status (engine w')) = 0 + Z.of_nat 0.
Proof.
  apply (polling_faulted [] (voltage 7) [voltage 8] (boot short_reply) 0
                         (boot short_reply) 0 (bytes_of_uint16 1234)).
  - reflexivity.
  - vm_compute. lia.
  - reflexivity.
  - reflexivity.
  - reflexivity.
Defined.

(** ** What the polling loop never touches *)

Lemma keeps_emit_recv s : keeps_timeout (emit (EvRecv s)).
Proof.
  apply keeps_quiet. intros w. split; [reflexivity|].
  exists [EvRecv s]. split; reflexivity.
Qed.

Lemma keeps_emit_output s : keeps_timeout (emit (EvOutput s)).
Proof.
  apply keeps_quiet. intros w. split; [reflexivity|].
  exists [EvOutput s]. split; reflexivity.
Qed.

Lemma keeps_emit_control c : keeps_timeout (emit (EvControl c)).
Proof.
  apply keeps_quiet. intros w. split; [reflexivity|].
  exists [EvControl c]. split; reflexivity.
Qed.

Lemma keeps_reconnect : keeps_timeout (modify IncreaseModbusReconnectCounter).
Proof.
  apply keeps_quiet. intros w. split; [reflexivity|].
  exists []. simpl. now rewrite app_nil_r.
Qed.

Lemma keeps_time_Now : keeps_timeout time_Now.
Proof.
  apply keeps_quiet. intros w. split; [reflexivity|].
  exists []. simpl. now rewrite app_nil_r.
Qed.

Lemma keeps_retry_loop n : forall rc snip, keeps_timeout (retry_loop n rc snip).
Proof.
  induction n as [|n IH]; intros rc snip; simpl; [apply keeps_ret|].
  apply keeps_bind; [apply keeps_query|]. intros [reading|err].
  - apply keeps_bind; [apply keeps_call|]. intros v.
    apply keeps_bind; [apply keeps_time_Now|]. intros ts.
    apply keeps_bind; [apply keeps_emit_output|]. intros _.
    apply keeps_bind; [apply keeps_emit_control|]. intros _. apply keeps_ret.
  - apply keeps_bind; [apply keeps_reconnect|]. intros _.
    apply keeps_bind; [apply keeps_log|]. intros _.
    apply keeps_bind; [apply keeps_time_Sleep|]. intros _. apply IH.
Qed.

Lemma keeps_serve p snip : keeps_timeout (serve p snip).
Proof.
  unfold serve.
  apply keeps_bind; [apply keeps_emit_recv|]. intros _.
  apply keeps_bind.
  { unfold settle. destruct (negb _); [apply keeps_time_Sleep | apply keeps_ret]. }
  intros _. apply keeps_bind; [apply keeps_retry_loop|]. intros ok.
  apply keeps_bind; [|intros _; apply keeps_ret].
  destruct ok; [apply keeps_ret | apply keeps_emit_control].
Qed.

Lemma keeps_poll input : forall p, keeps_timeout (poll p input).
Proof.
  induction input as [|s rest IH]; intros p; simpl; [apply keeps_ret|].
  apply keeps_bind; [apply keeps_serve | intros p'; apply IH].
Qed.

Lemma issues_emit P e :
  requests [e] = [] -> issues P (emit e).
Proof.
  intros H. apply issues_quiet. intros w. exists [e]. split; [reflexivity | exact H].
Qed.

Lemma issues_retry_loop n : forall rc snip,
  issues (fun rq => request_slave rq = QuerySnip.DeviceId snip)
         (retry_loop n rc snip).
Proof.
  induction n as [|n IH]; intros rc snip; simpl; [apply issues_ret|].
  apply issues_bind; [apply issues_query|]. intros [reading|err].
  - apply issues_bind; [apply issues_call|]. intros v.
    apply issues_bind.
    { apply issues_quiet. intros w. exists []. simpl. now rewrite app_nil_r. }
    intros ts.
    apply issues_bind; [apply issues_emit; reflexivity|]. intros _.
    apply issues_bind; [apply issues_emit; reflexivity|]. intros _.
    apply issues_ret.
  - apply issues_bind; [apply issues_modify|]. intros _.
    apply issues_bind; [apply issues_log|]. intros _.
    apply issues_bind; [apply issues_time_Sleep|]. intros _. apply IH.
Qed.

Lemma issues_serve p snip :
  issues (fun rq => request_slave rq = QuerySnip.DeviceId snip) (serve p snip).
Proof.
  unfold serve.
  apply issues_bind; [apply issues_emit; reflexivity|]. intros _.
  apply issues_bind.
  { unfold settle. destruct (negb _); [apply issues_time_Sleep | apply issues_ret]. }
  intros _. apply issues_bind; [apply issues_retry_loop|]. intros ok.
  apply issues_bind; [|intros _; apply issues_ret].
  destruct ok; [apply issues_ret | apply issues_emit; reflexivity].
Qed.

Lemma issues_poll input : forall p,
  issues (fun rq => In (request_slave rq) (map QuerySnip.DeviceId input))
         (poll p input).
Proof.
  induction input as [|s rest IH]; intros p; simpl poll; [apply issues_ret|].
  apply issues_bind.
  - eapply issues_weaken; [|apply issues_serve].
    cbv beta. intros rq ->. now left.
  - intros p'. eapply issues_weaken; [|apply IH].
    cbv beta. intros rq H. now right.
Qed.

(** X7.  However a run of the polling loop ends, it leaves the
    session timeout as it found it, and every request it has sent on
    the bus was sent under that timeout and addressed to the device
    of a request of the input. *)
Theorem polling_session input w0 :
  Timeout (handler (engine (final (Transform input w0))))
    = Timeout (handler (engine w0)) /\
  exists evs,
    trace (final (Transform input w0)) = trace w0 ++ evs /\
    Forall (fun rq =>
              request_timeout rq = Timeout (handler (engine w0)) /\
              In (request_slave rq) (map QuerySnip.DeviceId input))
           (requests evs).
Proof.
  destruct (keeps_poll input 0 w0) as (T & e1 & Tr1 & F1).
  destruct (issues_poll input 0 w0) as (e2 & Tr2 & F2).
  split; [exact T|]. exists e1. split; [exact Tr1|].
  unfold Transform in *. rewrite Tr1 in Tr2. apply app_inv_head in Tr2. subst e2.
  rewrite Forall_forall in *. intros rq Hrq. split; [apply F1 | apply F2]; exact Hrq.
Qed.

(** X8.  What one call of the query executor does to the session,
    however it ends: the request counter grows by one (also for a
    request it refuses), the slave id becomes the device of the snip,
    and the timeout, the reconnect counter and the clock stay; at most
    one request goes on the bus; nothing is put on a stream; and the
    failure line is logged exactly when the reply is an error and the
    engine is verbose. *)
Theorem query_effects snip w :
  let w' := final (query snip w) in
  ModbusRequests (status (engine w')) = ModbusRequests (status (engine w)) + 1 /\
  ModbusReconnects (status (engine w')) = ModbusReconnects (status (engine w)) /\
  SlaveId (handler (engine w')) = QuerySnip.DeviceId snip /\
  Timeout (handler (engine w')) = Timeout (handler (engine w)) /\
  clock w' = clock w /\
  exists evs,
    trace w' = trace w ++ evs /\
    (List.length (requests evs) <= 1)%nat /\
    sent evs = [] /\ received evs = [] /\ sleeps evs = [] /\
    logged evs = match query snip w with
                 | Done (inr err) _ =>
                     if verbose (engine w)
                     then [LogQueryFailed (QuerySnip.OpCode snip) err]
                     else []
                 | _ => []
                 end.
Proof.
  rewrite query_closed. destruct (dispatch snip) as [p|]; cbv zeta.
  - set (r := reply _ _ _ _ _ _). unfold final, world. cbn [engine clock trace].
    repeat split.
    exists (query_events w snip p r). split; [reflexivity|].
    destruct (query_events_facts w snip p r) as (_ & _ & _ & Rq & _).
    destruct (query_events_books w snip p r) as (S & R & Sl & _).
    rewrite Rq, S, R, Sl. repeat split; [simpl; lia|].
    unfold query_events. destruct r as [b|err]; [reflexivity|].
    destruct (verbose (engine w)); reflexivity.
  - unfold final, world. cbn [engine clock trace]. repeat split.
    exists []. rewrite app_nil_r. repeat split. simpl. lia.
Qed.

(** ** The books of the bus scan *)

Lemma verdicts_app a b : verdicts (a ++ b) = verdicts a ++ verdicts b.
Proof. apply flat_map_app. Qed.
Lemma found_app a b : found (a ++ b) = found a ++ found b.
Proof. apply flat_map_app. Qed.
Lemma counts_app a b : counts (a ++ b) = counts a ++ counts b.
Proof. apply flat_map_app. Qed.

#[local] Hint Rewrite verdicts_app found_app counts_app map_app : proj.

Lemma sweep_refl w : sweep w w [].
Proof.
  unfold sweep. rewrite app_nil_r.
  repeat split; cbn; first [reflexivity | lia].
Qed.

Lemma sweep_trans w1 w2 w3 e1 e2 :
  sweep w1 w2 e1 -> sweep w2 w3 e2 -> sweep w1 w3 (e1 ++ e2).
Proof.
  unfold sweep. intros (A1 & A2 & A3 & A4 & A5 & A6 & A7 & A8 & A9 & A10)
                       (B1 & B2 & B3 & B4 & B5 & B6 & B7 & B8 & B9 & B10).
  autorewrite with proj. rewrite A9, A10, B9, B10.
  repeat split; try congruence; try lia.
  rewrite B1, A1. now rewrite app_assoc.
Qed.

(** One accepted probe, on the books of the scan. *)
Lemma sweep_query w snip p r :
  sweep w (world (counted snip (engine w)) (clock w) (S (issued w))
                 (trace w ++ query_events w snip p r))
        (query_events w snip p r).
Proof.
  destruct (query_events_facts w snip p r) as (_ & _ & _ & Rq & _).
  destruct (query_events_books w snip p r) as (S & R & Sl & _).
  unfold sweep, world, slept. cbn [trace engine clock issued].
  rewrite Rq, S, R, Sl. cbn. rewrite Nat.add_1_r, Z.add_0_r. repeat split.
Qed.

Lemma query_events_lines w snip p r :
  verdicts (query_events w snip p r) = [] /\
  counts (query_events w snip p r) = [].
Proof.
  unfold query_events. destruct r as [b|err]; simpl; [split; reflexivity|].
  destruct (verbose (engine w)); split; reflexivity.
Qed.

(** The inner loop of the scan at one address, when it returns. *)
Lemma scan_producers_books d ps : forall w found_dev w',
  scan_producers d ps w = Done found_dev w' ->
  exists evs,
    sweep w w' evs /\ slept evs = 0 /\
    reported evs = [] /\ counts evs = [] /\
    (List.length (requests evs) <= List.length ps)%nat /\
    match found_dev with
    | Some dev =>
        DeviceId dev = d /\
        In (MeterType dev) (map GetMeterType ps) /\
        verdicts evs = [(d, Some (MeterType dev))] /\
        List.length (answered evs) = 1%nat
    | None =>
        verdicts evs = [] /\ answered evs = [] /\
        List.length (requests evs) = List.length ps
    end.
Proof.
  induction ps as [|p ps IH]; intros w fd w' H.
  - injection H as <- <-. exists []. split; [apply sweep_refl|].
    cbn. repeat split. lia.
  - simpl scan_producers in H. unfold bind at 1 in H.
    rewrite query_closed in H.
    destruct (dispatch (Probe p d)) as [pr|]; [|discriminate]. cbv zeta in H.
    set (r := reply _ _ _ _ _ _) in H.
    set (w1 := world _ _ _ _) in H.
    pose proof (sweep_query w (Probe p d) pr r) as L1. fold w1 in L1.
    destruct (query_events_facts w (Probe p d) pr r)
      as (_ & _ & _ & Rq & Rp & _).
    destruct (query_events_books w (Probe p d) pr r) as (_ & _ & Sl & _ & A).
    destruct (query_events_lines w (Probe p d) pr r) as (V & Cn).
    destruct r as [value|err].
    + unfold bind, call in H.
      destruct (QuerySnip.Transform (Probe p d) value) as [v|];
        [|discriminate].
      unfold ret, log_Printf, emit in H. injection H as <- <-.
      exists (query_events w (Probe p d) pr (inl value) ++
                [EvLog (LogFound d (GetMeterType p)
                                 (QuerySnip.IEC61850 (Probe p d)) v)]).
      split.
      * apply (sweep_trans _ _ _ _ _ L1). unfold sweep, w1, world.
        cbn. rewrite Nat.add_0_r, !Z.add_0_r. repeat split.
      * unfold slept. autorewrite with proj. rewrite Rq, Rp, Sl, A, V, Cn.
        cbn. repeat split; try lia. now left.
    + destruct (IH w1 fd w' H) as (e2 & L2 & Sl2 & Rp2 & Cn2 & N2 & Hfd).
      exists (query_events w (Probe p d) pr (inr err) ++ e2).
      split; [apply (sweep_trans _ _ _ _ _ L1 L2)|].
      unfold slept in *. autorewrite with proj.
      rewrite Rq, Rp, Sl, A, V, Cn, Sl2, Rp2, Cn2.
      cbn [app List.length total fold_right map].
      repeat split; try lia.
      destruct fd as [dev|].
      * destruct Hfd as (Hd & Hin & Hv & Ha).
        repeat split; try assumption. now right.
      * destruct Hfd as (Hv & Ha & Hn). rewrite Ha, Hn, Hv. repeat split.
Qed.

(** The loop over the addresses, when it returns. *)
Lemma scan_addresses_books ps n : forall d devs w devs' w',
  scan_addresses ps n d devs w = Done devs' w' ->
  exists evs,
    sweep w w' evs /\ slept evs = 40 * Z.of_nat n /\
    reported evs = [] /\ counts evs = [] /\
    map fst (verdicts evs) = addresses n d /\
    devs' = devs ++ map device (found (verdicts evs)) /\
    Forall (fun entry => In (snd entry) (map GetMeterType ps))
           (found (verdicts evs)) /\
    (List.length (requests evs) <= n * List.length ps)%nat /\
    List.length (answered evs) = List.length (found (verdicts evs)).
Proof.
  induction n as [|n IH]; intros d devs w devs' w' H.
  - injection H as <- <-. exists []. split; [apply sweep_refl|].
    cbn. rewrite app_nil_r. repeat split; first [constructor | lia].
  - simpl scan_addresses in H. unfold bind at 1, time_Sleep in H.
    set (w0 := Build_World _ _ _ _) in H.
    assert (L0 : sweep w w0 [EvSleep 40]).
    { unfold sweep, w0. cbn [trace engine clock issued].
      repeat split; cbn; first [reflexivity | lia]. }
    unfold bind at 1 in H.
    destruct (scan_producers d ps w0) as [fd w1|] eqn:P; [|discriminate].
    destruct (scan_producers_books d ps w0 fd w1 P)
      as (e1 & L1 & Sl1 & Rp1 & Cn1 & N1 & Hfd).
    destruct fd as [dev|].
    + destruct Hfd as (Hd & Hin & V1 & A1).
      destruct (IH _ _ _ _ _ H)
        as (e2 & L2 & Sl2 & Rp2 & Cn2 & V2 & Hdevs & F2 & N2 & A2).
      exists ([EvSleep 40] ++ e1 ++ e2).
      split; [apply (sweep_trans _ _ _ _ _ L0 (sweep_trans _ _ _ _ _ L1 L2))|].
      unfold slept in *. autorewrite with proj.
      rewrite Sl1, Sl2, Rp1, Rp2, Cn1, Cn2, V1, V2, A1, A2.
      cbn [sleeps flat_map app total fold_right reported counts verdicts
           answered requests List.length map fst snd found addresses].
      repeat split; try lia.
      * rewrite Hdevs, <- app_assoc. cbn [app map]. do 2 f_equal.
        destruct dev as [dd tt]. cbn in Hd. subst dd. reflexivity.
      * constructor; [exact Hin | exact F2].
    + destruct Hfd as (V1 & A1 & N1').
      unfold bind at 1, log_Printf, emit in H.
      set (w2 := Build_World _ _ _ _) in H.
      assert (L12 : sweep w1 w2 [EvLog (LogNA d)]).
      { unfold sweep, w2. cbn [trace engine clock issued].
        repeat split; cbn; first [reflexivity | lia]. }
      destruct (IH _ _ _ _ _ H)
        as (e2 & L2 & Sl2 & Rp2 & Cn2 & V2 & Hdevs & F2 & N2 & A2).
      exists ([EvSleep 40] ++ e1 ++ [EvLog (LogNA d)] ++ e2).
      split.
      { apply (sweep_trans _ _ _ _ _ L0). apply (sweep_trans _ _ _ _ _ L1).
        apply (sweep_trans _ _ _ _ _ L12 L2). }
      unfold slept in *. autorewrite with proj.
      rewrite Sl1, Sl2, Rp1, Rp2, Cn1, Cn2, V1, V2, A1, A2.
      cbn [sleeps flat_map app total fold_right reported counts verdicts
           answered requests List.length map fst snd found addresses].
      repeat split; try assumption; try lia.
Qed.

Lemma reported_absent_verdicts tr : reported_absent tr = missing (verdicts tr).
Proof.
  induction tr as [|e tr IH]; [reflexivity|].
  destruct e as [| | | | |l]; try exact IH.
  destruct l; simpl; try exact IH. now rewrite IH.
Qed.

(** The end of [Scan], after the address loop, on the books. *)
Lemma Scan_tail_books old devs w :
  exists w' evs,
    (modify (set_Timeout old) ;;
     log_Printf (LogFoundCount (List.length devs)) ;;
     log_devices devs ;;
     log_Printf LogWarning)%engine w = Done tt w' /\
    trace w' = trace w ++ evs /\
    Timeout (handler (engine w')) = old /\
    status (engine w') = status (engine w) /\
    clock w' = clock w /\ issued w' = issued w /\
    requests evs = [] /\ sent evs = [] /\ received evs = [] /\
    sleeps evs = [] /\ verdicts evs = [] /\ answered evs = [] /\
    reported evs = map (fun dev => (DeviceId dev, MeterType dev)) devs /\
    counts evs = [List.length devs].
Proof.
  assert (L : forall devs w,
             exists w' evs,
               log_devices devs w = Done tt w' /\
               trace w' = trace w ++ evs /\
               engine w' = engine w /\ clock w' = clock w /\
               issued w' = issued w /\
               requests evs = [] /\ sent evs = [] /\ received evs = [] /\
               sleeps evs = [] /\ verdicts evs = [] /\ answered evs = [] /\
               reported evs
               = map (fun dev => (DeviceId dev, MeterType dev)) devs /\
               counts evs = []).
  { clear. induction devs as [|dev devs IH]; intros w.
    - exists w, []. rewrite app_nil_r. repeat split.
    - simpl log_devices. unfold bind, log_Printf, emit.
      match goal with |- context [log_devices devs ?w1] =>
        destruct (IH w1)
          as (w' & evs & R & Tr & E & C & I & Rq & S & Rc & Sl & V & A & Rp & Cn)
      end.
      exists w', ([EvLog (LogDevice (DeviceId dev) (MeterType dev))] ++ evs).
      rewrite R, Tr. cbn [trace engine clock issued] in *.
      rewrite <- app_assoc. autorewrite with proj.
      rewrite Rq, S, Rc, Sl, V, A, Rp, Cn. repeat split; assumption. }
  unfold bind at 1 2, modify, log_Printf, emit.
  match goal with |- context [bind (log_devices devs) _ ?w1] =>
    destruct (L devs w1)
      as (w2 & evs & R & Tr & E & C & I & Rq & S & Rc & Sl & V & A & Rp & Cn)
  end.
  unfold bind. rewrite R.
  eexists. exists (EvLog (LogFoundCount (List.length devs))
                     :: evs ++ [EvLog LogWarning]).
  split; [reflexivity|]. cbn [trace engine clock issued] in *.
  rewrite Tr, E, C, I. cbn [trace engine clock issued status handler Timeout set_Timeout].
  rewrite <- !app_assoc.
  split; [reflexivity|].
  change (EvLog (LogFoundCount (List.length devs)) :: evs ++ [EvLog LogWarning])
    with ([EvLog (LogFoundCount (List.length devs))] ++ evs ++ [EvLog LogWarning]).
  autorewrite with proj. rewrite Rq, S, Rc, Sl, V, A, Rp, Cn.
  repeat split.
Qed.

Lemma addresses_sorted n : forall d, StronglySorted Z.lt (addresses n d).
Proof.
  induction n as [|n IH]; intros d; [constructor|].
  cbn [addresses]. constructor; [apply IH|].
  rewrite Forall_forall. intros x Hx. apply addresses_In in Hx. lia.
Qed.

Lemma found_In vs d t : In (d, t) (found vs) -> In d (map fst vs).
Proof.
  unfold found. rewrite in_flat_map. intros ([a o] & Hin & H).
  cbn in H. destruct o as [t'|]; [|contradiction].
  destruct H as [[= <- <-]|[]]. apply (in_map fst) in Hin. exact Hin.
Qed.

Lemma found_sorted vs :
  StronglySorted Z.lt (map fst vs) -> StronglySorted Z.lt (map fst (found vs)).
Proof.
  induction vs as [|[a o] vs IH]; intros H; [constructor|].
  cbn [map fst] in H. inversion H as [|? ? Hs Hall]; subst.
  destruct o as [t|]; [|exact (IH Hs)].
  change (found ((a, Some t) :: vs)) with ((a, t) :: found vs).
  cbn [map fst]. constructor; [exact (IH Hs)|].
  rewrite Forall_forall in *. intros x Hx.
  apply in_map_iff in Hx. destruct Hx as ([d t'] & <- & Hin).
  apply Hall. exact (found_In _ _ _ Hin).
Qed.

(** The address loop followed by the end of [Scan], when they return,
    on the books; [n] addresses from 1 on, [old] the timeout to
    restore. *)
Lemma scan_then_report ps n old w w' :
  bind (scan_addresses ps n 1 [])
       (fun deviceList =>
          modify (set_Timeout old) ;;
          log_Printf (LogFoundCount (List.length deviceList)) ;;
          log_devices deviceList ;;
          log_Printf LogWarning) w = Done tt w' ->
  exists evs,
    trace w' = trace w ++ evs /\
    Timeout (handler (engine w')) = old /\
    ModbusRequests (status (engine w'))
      = ModbusRequests (status (engine w))
        + Z.of_nat (List.length (requests evs)) /\
    ModbusReconnects (status (engine w'))
      = ModbusReconnects (status (engine w)) /\
    clock w' = clock w + 40 * Z.of_nat n /\
    sent evs = [] /\ received evs = [] /\
    map fst (verdicts evs) = addresses n 1 /\
    reported evs = found (verdicts evs) /\
    counts evs = [List.length (reported evs)] /\
    Forall (fun entry => In (snd entry) (map GetMeterType ps)) (reported evs) /\
    (List.length (requests evs) <= n * List.length ps)%nat /\
    List.length (answered evs) = List.length (reported evs).
Proof.
  intros H. unfold bind at 1 in H.
  destruct (scan_addresses ps n 1 [] w) as [devs w1|] eqn:E; [|discriminate].
  destruct (scan_addresses_books ps n 1 [] w devs w1 E)
    as (e1 & L1 & Sl1 & Rp1 & Cn1 & V1 & Hdevs & F1 & N1 & A1).
  destruct (Scan_tail_books old devs w1)
    as (w2 & e2 & R & Tr2 & T2 & St2 & C2 & I2 & Rq2 & S2 & Rc2 & Sl2 & V2
        & A2 & Rp2 & Cn2).
  rewrite R in H. injection H as <-.
  destruct L1 as (Tr1 & _ & _ & _ & Rq1 & Rc1 & _ & CL1 & S1 & Rv1).
  rewrite app_nil_l in Hdevs. subst devs.
  assert (Rp2' : reported e2 = found (verdicts e1)).
  { rewrite Rp2. clear. induction (found (verdicts e1)) as [|[d t] l IH];
      [reflexivity|]. cbn [map device DeviceId MeterType fst snd].
    now rewrite IH. }
  rewrite length_map in Cn2.
  exists (e1 ++ e2).
  rewrite reported_app, requests_app, answered_app, verdicts_app, counts_app,
    sent_app, received_app, length_app.
  rewrite Tr2, Tr1, T2, St2, C2, CL1, Sl1, Rq1, Rc1, Rq2, S1, S2, Rv1, Rc2,
    V2, Rp1, Rp2', Cn1, Cn2, A2, !app_nil_r, app_nil_l, Nat.add_0_r, A1.
  rewrite <- app_assoc, V1.
  repeat split; try assumption.
Qed.

(** A scan that returns, on the books. *)
Lemma Scan_books ps w w' :
  Scan ps w = Done tt w' ->
  exists evs,
    trace w' = trace w ++ evs /\
    Timeout (handler (engine w')) = Timeout (handler (engine w)) /\
    ModbusRequests (status (engine w'))
      = ModbusRequests (status (engine w))
        + Z.of_nat (List.length (requests evs)) /\
    ModbusReconnects (status (engine w'))
      = ModbusReconnects (status (engine w)) /\
    clock w' = clock w + 40 * Z.of_nat 247 /\
    sent evs = [] /\ received evs = [] /\
    map fst (verdicts evs) = addresses 247 1 /\
    reported evs = found (verdicts evs) /\
    counts evs = [List.length (reported evs)] /\
    Forall (fun entry => In (snd entry) (map GetMeterType ps)) (reported evs) /\
    (List.length (requests evs) <= 247 * List.length ps)%nat /\
    List.length (answered evs) = List.length (reported evs).
Proof.
  intros H. rewrite Scan_closed in H.
  destruct (scan_then_report ps 247 _ _ _ H)
    as (evs & Tr & T & Rq & Rc & CL & S & Rv & V & Rp & Cn & F & N & A).
  exists ([EvLog LogScanStart] ++ evs).
  rewrite reported_app, requests_app, answered_app, verdicts_app, counts_app,
    sent_app, received_app.
  change (reported [EvLog LogScanStart]) with (@nil (Z * string)).
  change (requests [EvLog LogScanStart])
    with (@nil (Primitive * RTUClientHandler * Z * Z)).
  change (answered [EvLog LogScanStart]) with (@nil bytes).
  change (verdicts [EvLog LogScanStart]) with (@nil (Z * option string)).
  change (counts [EvLog LogScanStart]) with (@nil nat).
  change (sent [EvLog LogScanStart])
    with (@nil (QuerySnip.t + ControlSnip.t)).
  change (received [EvLog LogScanStart]) with (@nil QuerySnip.t).
  rewrite !app_nil_l.
  unfold world in Tr, Rq, Rc, CL. cbn [trace engine clock] in Tr, Rq, Rc, CL.
  split; [rewrite Tr; now rewrite <- app_assoc|].
  repeat split; assumption.
Qed.

Lemma Scan_sound_done ps w :
  static (client (engine w)) -> faithful (client (engine w)) ->
  Forall sound_producer ps ->
  exists w', Scan ps w = Done tt w'.
Proof.
  intros Hst Hf Hs. rewrite Scan_closed.
  set (w50 := world (set_Timeout 50 (engine w)) _ _ _).
  destruct (scan_addresses_sound ps 247 1 [] w50 Hst Hf Hs eq_refl)
    as (w1 & e1 & R1 & _).
  rewrite (bind_Done _ _ _ _ _ R1).
  match goal with
  | |- exists w', bind (modify (set_Timeout ?old)) _ w1 = _ =>
      match goal with
      | |- context [log_devices ?devs] =>
          destruct (Scan_tail old devs w1) as (w' & R & _)
      end
  end.
  exists w'. exact R.
Qed.

Lemma found_missing_length vs :
  (List.length (found vs) + List.length (missing vs))%nat = List.length vs.
Proof.
  induction vs as [|[d o] vs IH]; [reflexivity|].
  destruct o as [t|].
  - change (found ((d, Some t) :: vs)) with ((d, t) :: found vs).
    change (missing ((d, Some t) :: vs)) with (missing vs).
    cbn [List.length]. lia.
  - change (found ((d, None) :: vs)) with (found vs).
    change (missing ((d, None) :: vs)) with (d :: missing vs).
    cbn [List.length]. lia.
Qed.


Lemma addresses_length n : forall d, List.length (addresses n d) = n.
Proof. induction n; intros; cbn; auto. Qed.

(** X9.  The verdicts of a scan that returns, on any bus and with any
    producers: during the sweep exactly one verdict is logged per
    address, for the addresses 1 to 247 in ascending order, either a
    device found or "n/a"; the final report repeats exactly the
    devices found, with their meter types and in the same order, so
    its addresses are strictly ascending and each appears once; every
    meter type in it is the label of one of the producers; the count
    line states the number of devices listed; and the devices and the
    "n/a" lines together are 247. *)
Theorem scan_verdicts ps w w' :
  Scan ps w = Done tt w' ->
  exists evs,
    trace w' = trace w ++ evs /\
    map fst (verdicts evs) = addresses 247 1 /\
    reported evs = found (verdicts evs) /\
    reported_absent evs = missing (verdicts evs) /\
    counts evs = [List.length (reported evs)] /\
    StronglySorted Z.lt (map fst (reported evs)) /\
    Forall (fun entry => 1 <= fst entry <= 247 /\
                         In (snd entry) (map GetMeterType ps))
           (reported evs) /\
    (List.length (reported evs) + List.length (reported_absent evs))%nat
      = 247%nat.
Proof.
  intros H. destruct (Scan_books ps w w' H)
    as (evs & Tr & _ & _ & _ & _ & _ & _ & V & Rp & Cn & F & _).
  exists evs. rewrite reported_absent_verdicts.
  split; [exact Tr|]. split; [exact V|]. split; [exact Rp|].
  split; [reflexivity|]. split; [exact Cn|].
  split; [|split].
  - rewrite Rp. apply found_sorted. rewrite V. apply addresses_sorted.
  - rewrite Forall_forall in *. intros [d t] Hin. split; [|exact (F _ Hin)].
    rewrite Rp in Hin. apply found_In in Hin. rewrite V in Hin.
    apply addresses_In in Hin. change (Z.of_nat 247) with 247 in Hin.
    cbn [fst]. lia.
  - rewrite Rp, found_missing_length.
    rewrite <- (length_map fst), V. apply addresses_length.
Qed.

Lemma scan_verdicts_witness :
  exists w' evs,
    Scan [sdm; janitza] (boot two_devices) = Done tt w' /\
    trace w' = trace (boot two_devices) ++ evs /\
    map fst (verdicts evs) = addresses 247 1 /\
    reported evs = found (verdicts evs) /\
    reported_absent evs = missing (verdicts evs) /\
    counts evs = [List.length (reported evs)] /\
    StronglySorted Z.lt (map fst (reported evs)) /\
    Forall (fun entry => 1 <= fst entry <= 247 /\
                         In (snd entry) (map GetMeterType [sdm; janitza]))
           (reported evs) /\
    (List.length (reported evs) + List.length (reported_absent evs))%nat
      = 247%nat.
Proof.
  destruct (Scan_sound_done [sdm; janitza] (boot two_devices)) as (w' & H).
  - apply two_devices_static.
  - apply two_devices_faithful.
  - constructor; [apply sdm_sound|].
    constructor; [apply janitza_sound | constructor].
  - destruct (scan_verdicts _ _ _ H) as (evs & Hevs).
    exists w', evs. split; [exact H | exact Hevs].
Defined.




